(** * rpmdistro-gitoverlay: a shallow embedding of [rdgo/git.py] and
    [rdgo/task_resolve.py], and the properties of the mirroring engine, the
    component expander, the version resolver and the snapshot committer.

    Python byte strings are Rocq [string]s, indices are [Z] (with Python's
    [-1] for "not found" and its clamping of slice bounds), dictionaries are
    stdpp [gmap]s with string keys, and exceptions are an explicit error
    type. *)

From Stdlib Require Import ZArith Ascii String Bool Lia.
From stdpp Require Import base option list gmap strings fin_maps.

Local Open Scope Z_scope.

(** ** Python exceptions and results *)

Inductive exn : Type :=
  | AssertionError
  | SystemExit (msg : string)
  | ValueError (msg : string)
  | KeyError (key : string)
  | Exception (msg : string)
  | CalledProcessError
  | IOError
  | OSError
  | RecursionLimit.

Inductive result (A : Type) : Type :=
  | Ok (a : A)
  | Raise (e : exn).
Arguments Ok {A} a.
Arguments Raise {A} e.

#[global] Instance result_ret : MRet result := fun A a => Ok a.
#[global] Instance result_bind : MBind result := fun A B k r =>
  match r with
  | Ok a => k a
  | Raise e => Raise e
  end.

(** Modelled from the spec: [utils.fatal] is imported from [rdgo/utils.py],
    which is not part of the sources at hand.  Every error class is
    "run-fatal: the process aborts immediately with a descriptive message",
    so [fatal] ends the run with that message and never returns. *)
Definition fatal {A} (msg : string) : result A := Raise (SystemExit msg).

(** ** Python string primitives *)

Module PyStr.

Definition len (s : string) : Z := Z.of_nat (String.length s).

(** [s.startswith(p)] *)
Definition startswith (s p : string) : bool := String.prefix p s.

(** [s.endswith(p)] *)
Definition endswith (s p : string) : bool :=
  let n := String.length s in
  let m := String.length p in
  (m <=? n)%nat && String.eqb (String.substring (n - m) m s) p.

(** A slice bound [i] of a sequence of length [n]: negative bounds count
    from the end, and everything is clamped to [0..n]. *)
Definition clamp (n i : Z) : Z :=
  if i <? 0 then Z.max 0 (n + i) else Z.min i n.

(** [s[lo:hi]] *)
Definition slice (s : string) (lo hi : Z) : string :=
  let n := len s in
  let a := clamp n lo in
  let b := clamp n hi in
  String.substring (Z.to_nat a) (Z.to_nat (b - a)) s.

(** [s[lo:]] *)
Definition slice_from (s : string) (lo : Z) : string := slice s lo (len s).

(** Offset of the first occurrence of [sub] in [s]. *)
Fixpoint find_nat (sub s : string) : option nat :=
  if String.prefix sub s then Some 0%nat
  else match s with
       | EmptyString => None
       | String _ s' => S <$> find_nat sub s'
       end.

(** [s.find(sub, start)]: the lowest index at or after [start] where [sub]
    occurs, [-1] if there is none (also when [start] is past the end). *)
Definition find (s sub : string) (start : Z) : Z :=
  let n := len s in
  if n <? start then -1
  else
    let a := clamp n start in
    match find_nat sub (slice_from s a) with
    | Some i => a + Z.of_nat i
    | None => -1
    end.

(** Offset of the last occurrence of [sub] in [s]. *)
Fixpoint rfind_nat (sub s : string) : option nat :=
  match s with
  | EmptyString => if String.prefix sub EmptyString then Some 0%nat else None
  | String c s' =>
      match rfind_nat sub s' with
      | Some i => Some (S i)
      | None => if String.prefix sub (String c s') then Some 0%nat else None
      end
  end.

(** [s.rfind(sub)] *)
Definition rfind (s sub : string) : Z :=
  match rfind_nat sub s with
  | Some i => Z.of_nat i
  | None => -1
  end.

(** [s.replace(old, new)], every non-overlapping occurrence from the left.
    [skip] counts the characters of a match still to be dropped. *)
Fixpoint replace_from (old new : string) (skip : nat) (s : string) : string :=
  match s with
  | EmptyString => EmptyString
  | String c s' =>
      match skip with
      | S k => replace_from old new k s'
      | O =>
          if String.prefix old s
          then new +:+ replace_from old new (String.length old - 1) s'
          else String c (replace_from old new 0 s')
      end
  end.

Fixpoint interleave (new s : string) : string :=
  match s with
  | EmptyString => EmptyString
  | String c s' => String c (new +:+ interleave new s')
  end.

Definition replace (s old new : string) : string :=
  if String.eqb old "" then new +:+ interleave new s
  else replace_from old new 0 s.

(** The characters [str.strip()] removes: space, [\t \n \v \f \r]. *)
Definition is_space (c : ascii) : bool :=
  let n := Z.of_N (N_of_ascii c) in
  (n =? 32) || ((9 <=? n) && (n <=? 13)).

Fixpoint lstrip (s : string) : string :=
  match s with
  | EmptyString => EmptyString
  | String c s' => if is_space c then lstrip s' else s
  end.

Fixpoint rstrip (s : string) : string :=
  match s with
  | EmptyString => EmptyString
  | String c s' =>
      let r := rstrip s' in
      if is_space c && String.eqb r "" then EmptyString else String c r
  end.

(** The line feed, ['\n']. *)
Definition newline : string := String (ascii_of_nat 10) EmptyString.

(** [s.strip()] *)
Definition strip (s : string) : string := lstrip (rstrip s).

End PyStr.

(** ** [rdgo/git.py] *)

Module Git.
Import PyStr.

(** The [while relpath.startswith('../')] loop of [make_absolute_url]:
    each round cuts [parent] at its last ['/'] and drops three characters
    of [relpath]; [None] is the [fatal] exit taken when [parent] has no
    ['/'] left. *)
Fixpoint walk_up (relpath parent : string) : option (string * string) :=
  match relpath with
  | String a (String b (String c rest)) =>
      if Ascii.eqb a "." && Ascii.eqb b "." && Ascii.eqb c "/" then
        let i := rfind parent "/" in
        if i =? -1 then None
        else walk_up rest (slice parent 0 i)
      else Some (parent, relpath)
  | _ => Some (parent, relpath)
  end.

Definition make_absolute_url (parent relpath : string) : result string :=
  let orig_parent := parent in
  let orig_relpath := relpath in
  let parent := if endswith parent "/" then slice parent 0 (-1) else parent in
  let method_index := find parent "://" 0 in
  if method_index =? -1 then Raise AssertionError
  else
    let first_slash := find parent "/" (method_index + 3) in
    if first_slash =? -1 then Raise AssertionError
    else
      let parent_path := slice_from parent first_slash in
      match walk_up relpath parent with
      | None =>
          fatal ("Relative submodule path " +:+ orig_relpath
                 +:+ " is too long for parent " +:+ orig_parent)
      | Some (parent, relpath) =>
          let parent := slice parent 0 first_slash +:+ parent in
          if String.eqb relpath "" then Ok parent
          else Ok (parent +:+ "/" +:+ relpath)
      end.

(** [GitSubmodule = namedtuple('GitSubmodule', ['checksum', 'name', 'url'])] *)
Record GitSubmodule : Type := {
  checksum : string;
  name : string;
  url : string;
}.

(** What the [git] client sees of a repository: the output of
    [git rev-parse <ref>] and of [git describe --long --abbrev=40 --always
    <ref>] for the refs that resolve, and for a ref that can be checked out
    the submodules that [git submodule status] lists there, each with the
    URL [.gitmodules] configures for it (possibly relative). *)
Record repo : Type := {
  repo_refs : gmap string string;
  repo_describe : gmap string string;
  repo_submodules : gmap string (list GitSubmodule);
}.

(** A mirror directory: the bare clone, the URL it was cloned from, and the
    two files of the cache stamp, [submodules-cache-stamp] and
    [submodules-cache-stamp.tmp]. *)
Record mirror_entry : Type := {
  entry_repo : repo;
  entry_origin : string;
  entry_stamp : option string;
  entry_stamp_tmp : option string;
}.

(** What a run of the mirroring engine does, in order. *)
Inductive event : Type :=
  | EvClone (url mirrordir : string)
  | EvFetch (mirrordir : string)
  | EvProcessing (module : GitSubmodule)
  | EvStamp (mirrordir rev : string).

(** The file system under [self.mirrordir], keyed by mirror directory, and
    the trace of the run.  The scratch paths (the [<mirrordir>.tmp] that
    [mirror] removes, clones into and renames, and the checkouts under
    [_tmp]) are created and removed within one step; they are taken to be
    distinct from every mirror directory and are not part of the state. *)
Record world : Type := {
  fs : gmap string mirror_entry;
  trace : list event;
}.

Definition emit (ev : event) (w : world) : world :=
  {| fs := fs w; trace := trace w ++ [ev] |}.

Definition set_entry (dir : string) (e : mirror_entry) (w : world) : world :=
  {| fs := <[dir := e]> (fs w); trace := trace w |}.

(** The [GitMirror] object and the remote repositories it can reach. *)
Record GitMirror : Type := {
  mirrordir : string;
  remotes : gmap string repo;
}.

Definition _get_mirrordir (self : GitMirror) (uri prefix : string)
  : result string :=
  let colon := find uri "://" 0 in
  if 0 <=? colon then
    let scheme := slice uri 0 colon in
    let rest := slice_from uri (colon + 3) in
    let prefix := if String.eqb prefix "" then prefix else prefix +:+ "/" in
    Ok (mirrordir self +:+ "/" +:+ prefix +:+ scheme +:+ "/" +:+ rest)
  else Raise (Exception ("Invalid uri " +:+ uri)).

Definition _strip_file_url (url : string) : string :=
  if startswith url "file://" then slice_from url (len "file://") else url.

(** [git clone --mirror <url> <tmp_mirror>], [git config gc.auto 0] and the
    rename of [tmp_mirror] to [mirrordir].
    Modelled from the spec: [utils.run_sync], which runs the command, is not
    part of the sources at hand; a command that fails aborts the run ("no
    partial mirror state is treated as valid"). *)
Definition clone_mirror (self : GitMirror) (url dir : string) (w : world)
  : world * result unit :=
  match remotes self !! _strip_file_url url with
  | None => (w, Raise CalledProcessError)
  | Some r =>
      (emit (EvClone url dir)
         (set_entry dir {| entry_repo := r;
                           entry_origin := _strip_file_url url;
                           entry_stamp := None;
                           entry_stamp_tmp := None |} w),
       Ok ())
  end.

(** [git fetch] in an existing mirror. *)
Definition fetch_mirror (self : GitMirror) (dir : string) (e : mirror_entry)
    (w : world) : world * result unit :=
  match remotes self !! entry_origin e with
  | None => (emit (EvFetch dir) w, Raise CalledProcessError)
  | Some r =>
      (emit (EvFetch dir)
         (set_entry dir {| entry_repo := r;
                           entry_origin := entry_origin e;
                           entry_stamp := entry_stamp e;
                           entry_stamp_tmp := entry_stamp_tmp e |} w),
       Ok ())
  end.

(** [subprocess.check_output(['git', 'rev-parse', branch], cwd=gitdir).strip()] *)
Definition _git_revparse (w : world) (gitdir branch : string) : result string :=
  match fs w !! gitdir with
  | None => Raise OSError
  | Some e =>
      match repo_refs (entry_repo e) !! branch with
      | None => Raise CalledProcessError
      | Some out => Ok (strip out)
      end
  end.

(** The loop body of [_list_submodules_in], over the submodules reported
    for the checked-out revision. *)
Fixpoint absolute_submodules (uri : string) (subs : list GitSubmodule)
  : result (list GitSubmodule) :=
  match subs with
  | [] => Ok []
  | m :: rest =>
      sub_url ← (if startswith (url m) "../"
                  then make_absolute_url uri (url m)
                  else Ok (url m));
      submodules ← absolute_submodules uri rest;
      Ok ({| checksum := checksum m; name := name m; url := sub_url |}
            :: submodules)
  end.

(** [_list_submodules]: resolve [branch], clone the mirror into a scratch
    directory, check [branch] out there and list its submodules. *)
Definition _list_submodules (w : world) (gitdir uri branch : string)
  : result (list GitSubmodule) :=
  current_rev ← _git_revparse w gitdir branch;
  match fs w !! gitdir with
  | None => Raise CalledProcessError
  | Some e =>
      match repo_submodules (entry_repo e) !! branch with
      | None => Raise CalledProcessError
      | Some subs => absolute_submodules uri subs
      end
  end.

(** The [for module in ...] loop of [mirror]; [rec] is the recursive call. *)
Fixpoint mirror_modules
    (rec : world -> string -> string -> bool -> world * result string)
    (w : world) (modules : list GitSubmodule) (fetch : bool)
  : world * result unit :=
  match modules with
  | [] => (w, Ok ())
  | module :: rest =>
      match rec (emit (EvProcessing module) w)
                (url module) (checksum module) fetch with
      | (w', Raise e) => (w', Raise e)
      | (w', Ok _) => mirror_modules rec w' rest fetch
      end
  end.

(** [with open(cachepath + '.tmp', 'w') as f: f.write(rev + '\n')]
    followed by [os.rename(cachepath + '.tmp', cachepath)]. *)
Definition write_stamp (dir rev : string) (w : world) : world * result unit :=
  match fs w !! dir with
  | None => (w, Raise IOError)
  | Some e =>
      let e1 := {| entry_repo := entry_repo e;
                   entry_origin := entry_origin e;
                   entry_stamp := entry_stamp e;
                   entry_stamp_tmp := Some (rev +:+ newline) |} in
      let e2 := {| entry_repo := entry_repo e1;
                   entry_origin := entry_origin e1;
                   entry_stamp := entry_stamp_tmp e1;
                   entry_stamp_tmp := None |} in
      (emit (EvStamp dir rev) (set_entry dir e2 (set_entry dir e1 w)), Ok ())
  end.

(** Lines 155 to 162 of [mirror]: clone when the mirror directory is not
    there, otherwise fetch if asked to. *)
Definition ensure_mirror (self : GitMirror) (url mirrordir : string)
    (fetch : bool) (w : world) : world * result unit :=
  match fs w !! mirrordir with
  | None => clone_mirror self url mirrordir w
  | Some e =>
      if fetch then fetch_mirror self mirrordir e w
      else (w, Ok ())
  end.

(** [os.path.exists(cachepath)] and
    [open(cachepath).read().strip() == rev]. *)
Definition stamp_matches (w : world) (mirrordir rev : string) : bool :=
  match fs w !! mirrordir with
  | Some {| entry_stamp := Some content |} => String.eqb (strip content) rev
  | _ => false
  end.

(** Lines 164 to 181 of [mirror]: resolve the ref, return at once when the
    stamp records that revision, otherwise mirror every submodule (by
    [rec], the recursive call) and then write the stamp. *)
Definition mirror_revision
    (rec : world -> string -> string -> bool -> world * result string)
    (w : world) (mirrordir url branch_or_tag : string) (fetch : bool)
  : world * result string :=
  match _git_revparse w mirrordir branch_or_tag with
  | Raise e => (w, Raise e)
  | Ok rev =>
      if stamp_matches w mirrordir rev then (w, Ok rev)
      else
        match _list_submodules w mirrordir url branch_or_tag with
        | Raise e => (w, Raise e)
        | Ok modules =>
            match mirror_modules rec w modules fetch with
            | (w, Raise e) => (w, Raise e)
            | (w, Ok _) =>
                match write_stamp mirrordir rev w with
                | (w, Raise e) => (w, Raise e)
                | (w, Ok _) => (w, Ok rev)
                end
            end
        end
  end.

(** [GitMirror.mirror].  The recursion follows the submodule graph, which
    nothing bounds; [depth] is the number of nested calls the interpreter
    allows before it gives up. *)
Fixpoint mirror (depth : nat) (self : GitMirror) (w : world)
    (url branch_or_tag : string) (fetch : bool) {struct depth}
  : world * result string :=
  match depth with
  | O => (w, Raise RecursionLimit)
  | S depth' =>
      match _get_mirrordir self url "" with
      | Raise e => (w, Raise e)
      | Ok mirrordir =>
          match ensure_mirror self url mirrordir fetch w with
          | (w, Raise e) => (w, Raise e)
          | (w, Ok _) =>
              mirror_revision (mirror depth' self) w
                mirrordir url branch_or_tag fetch
          end
      end
  end.

(** [GitMirror.describe]: [out] is what [git describe --long --abbrev=40
    --always] prints for the ref. *)
Definition parse_description (out : string) : result (option string * string) :=
  let description := strip out in
  if len description =? 40 then Ok (None, description)
  else
    let rgdash := rfind description "-g" in
    if 0 <=? rgdash
    then Ok (Some (slice description 0 rgdash),
             slice_from description (rgdash + 2))
    else Raise AssertionError.

Definition describe (self : GitMirror) (w : world) (url branch_or_tag : string)
  : result (option string * string) :=
  mirrordir ← _get_mirrordir self url "";
  match fs w !! mirrordir with
  | None => Raise OSError
  | Some e =>
      match repo_describe (entry_repo e) !! branch_or_tag with
      | None => Raise CalledProcessError
      | Some out => parse_description out
      end
  end.

End Git.

(** ** States of the mirror store *)

Module MirrorState.
Import PyStr Git.

(** Every mirror directory of [w] is still there in [w'], with the same
    clone in it. *)
Definition repos_kept (w w' : world) : Prop :=
  forall dir e,
    fs w !! dir = Some e ->
    exists e', fs w' !! dir = Some e' /\ entry_repo e' = entry_repo e.

(** The mirror directory [dir] holds a clone in which [ref] resolves to
    [rev], and a cache stamp that reads back as [rev]. *)
Definition stamped (w : world) (dir ref rev : string) : Prop :=
  exists e out content,
    fs w !! dir = Some e
    /\ repo_refs (entry_repo e) !! ref = Some out
    /\ strip out = rev
    /\ entry_stamp e = Some content
    /\ strip content = rev.

(** The stamp of [dir] was the last thing the run did: the file holds
    [rev] and a line feed, the temporary file is gone, and the write ends
    the trace. *)
Definition stamp_written_last (w : world) (dir rev : string) : Prop :=
  exists e tr,
    fs w !! dir = Some e
    /\ entry_stamp e = Some (rev +:+ newline)
    /\ entry_stamp_tmp e = None
    /\ trace w = tr ++ [EvStamp dir rev].

End MirrorState.

(** ** [rdgo/task_resolve.py] *)

Module TaskResolve.
Import PyStr Git.

(** An entry of the overlay's [aliases] list. *)
Record alias : Type := {
  alias_name : string;
  alias_url : string;
}.

(** The fields of the task that expansion reads: [self._overlay.get(
    'aliases', [])] and [self._distgit_prefix]. *)
Record task : Type := {
  aliases : list alias;
  _distgit_prefix : string;
}.

(** A component record of [overlay.yml]: its scalar keys, and the nested
    mapping under the key [distgit] when there is one.  Scalars are
    strings; a key that is absent and a key set to [None] read the same
    through [dict.get]. *)
Record Component : Type := {
  fields : gmap string string;
  distgit : option (gmap string string);
}.

Definition set_fields (f : gmap string string) (c : Component) : Component :=
  {| fields := f; distgit := distgit c |}.

Definition set_distgit (d : option (gmap string string)) (c : Component)
  : Component :=
  {| fields := fields c; distgit := d |}.

(** [d[key]] *)
Definition getitem (d : gmap string string) (key : string) : result string :=
  match d !! key with
  | Some v => Ok v
  | None => Raise (KeyError key)
  end.

Definition _url_to_projname (url : string) : string :=
  let rcolon := rfind url ":" in
  let rslash := rfind url "/" in
  let basename := slice_from url (Z.max rcolon rslash + 1) in
  if endswith basename ".git" then slice basename 0 (-4) else basename.

(** The [for alias in aliases] loop of [_expand_srckey]. *)
Fixpoint expand_alias (aliases : list alias) (val : string) : string :=
  match aliases with
  | [] => val
  | alias :: rest =>
      let name := alias_name alias in
      let namec := name +:+ ":" in
      if negb (startswith val namec) then expand_alias rest val
      else alias_url alias +:+ slice_from val (len namec)
  end.

Definition _expand_srckey (self : task) (component : gmap string string)
    (key : string) : result string :=
  val ← getitem component key;
  Ok (expand_alias (aliases self) val).

(** Returns the dictionary as the call leaves it, and the value. *)
Definition _ensure_key_or (dictval : gmap string string) (key value : string)
  : gmap string string * string :=
  match dictval !! key with
  | Some v => (dictval, v)
  | None => (<[key := value]> dictval, value)
  end.

Fixpoint first_of_keys (dictval : gmap string string) (args : list string)
  : option string :=
  match args with
  | [] => None
  | k :: rest =>
      match dictval !! k with
      | Some v => Some v
      | None => first_of_keys dictval rest
      end
  end.

Definition _one_of_keys (dictval : gmap string string) (first : string)
    (args : list string) : option string :=
  match dictval !! first with
  | Some v => Some v
  | None => first_of_keys dictval args
  end.

(** [if d.get('tag') is None: d['branch'] = d.get('branch', 'master')] *)
Definition default_branch (d : gmap string string) : gmap string string :=
  match d !! "tag" with
  | None => <["branch" := default "master" (d !! "branch")]> d
  | Some _ => d
  end.

Definition is_internal (spec : option string) : bool :=
  match spec with
  | Some s => String.eqb s "internal"
  | None => false
  end.

(** The block of [_expand_component] under the second
    [if spec != 'internal'], on the [distgit] dictionary. *)
Definition expand_distgit (self : task) (distgit : gmap string string)
    (pkgname_default : string) : result (gmap string string * string) :=
  let '(distgit, pkgname_default) :=
    _ensure_key_or distgit "name" pkgname_default in
  name ← getitem distgit "name";
  let '(distgit, src) :=
    _ensure_key_or distgit "src" (_distgit_prefix self +:+ ":" +:+ name) in
  let distgit := <["src" := src]> distgit in
  src ← _expand_srckey self distgit "src";
  let distgit := <["src" := src]> distgit in
  Ok (default_branch distgit, pkgname_default).

(** [_expand_component]; the component is updated in place, so the result
    is the component as the call leaves it.  The local variable [distgit]
    is bound on every path except [src != 'distgit'] with
    [spec == 'internal'], where it is [None] here. *)
Definition _expand_component (self : task) (component : Component)
  : result Component :=
  match fields component !! "src" with
  | None => fatal "Component {0} is missing 'src'"
  | Some src =>
      let spec := fields component !! "spec" in
      _ ← match spec with
          | Some s =>
              if String.eqb s "internal" then Ok ()
              else Raise (ValueError ("Unknown spec type " +:+ s))
          | None => Ok ()
          end;
      '(component, name, distgit_var) ←
        (if negb (String.eqb src "distgit") then
           src ← _expand_srckey self (fields component) "src";
           let component := set_fields (<["src" := src]> (fields component)) component in
           let '(f, name) :=
             _ensure_key_or (fields component) "name" (_url_to_projname src) in
           let component := set_fields f component in
           if negb (is_internal spec) then
             let d := default ∅ (distgit component) in
             Ok (set_distgit (Some d) component, name, Some d)
           else Ok (component, name, None)
         else
           let component := set_fields (delete "src" (fields component)) component in
           match distgit component with
           | None => fatal "Component {0} is missing 'distgit'"
           | Some d =>
               match d !! "name" with
               | None => fatal "Component {0} is missing 'distgit/name'"
               | Some name =>
                   let '(f, _) := _ensure_key_or (fields component) "name" name in
                   Ok (set_fields f component, name, Some d)
               end
           end);
      let pkgname_default := name in
      let component := set_fields (default_branch (fields component)) component in
      '(component, pkgname_default) ←
        (if negb (is_internal spec) then
           match distgit_var with
           | None => Raise (Exception "local variable 'distgit' referenced before assignment")
           | Some d =>
               '(d, pkgname_default) ← expand_distgit self d pkgname_default;
               Ok (set_distgit (Some d) component, pkgname_default)
           end
         else Ok (component, pkgname_default));
      let '(f, _) := _ensure_key_or (fields component) "pkgname" pkgname_default in
      Ok (set_fields f component)
  end.

(** The ref handed to [mirror] in [run], for the component and for its
    [distgit] record: [self._one_of_keys(d, 'freeze', 'branch', 'tag')]. *)
Definition mirror_ref (d : gmap string string) : option string :=
  _one_of_keys d "freeze" ["branch"; "tag"].

Fixpoint _strip_all_prefixes (s : string) (prefixes : list string) : string :=
  match prefixes with
  | [] => s
  | prefix :: rest =>
      _strip_all_prefixes
        (if startswith s prefix then slice_from s (len prefix) else s) rest
  end.

(** [x or d] on an optional string: [None] and the empty string are false. *)
Definition or_else (x : option string) (d : string) : string :=
  match x with
  | Some s => if String.eqb s "" then d else s
  | None => d
  end.

Definition _rpm_verrel (component : Component)
    (upstream_tag upstream_rev distgit_desc : option string)
  : result (string * string) :=
  let rpm_version := or_else upstream_tag "0" in
  pkgname ← getitem (fields component) "pkgname";
  let rpm_version := _strip_all_prefixes rpm_version ["v"; pkgname +:+ "-"] in
  let rpm_version := replace rpm_version "-" "." in
  let gitdesc := or_else upstream_rev "" in
  let gitdesc :=
    match distgit_desc with
    | Some distgit_desc =>
        (if negb (String.eqb gitdesc "") then gitdesc +:+ "." else gitdesc)
        +:+ replace distgit_desc "-" "."
    | None => gitdesc
    end in
  Ok (rpm_version, gitdesc).

(** [tag + '-' + rev] when there is a tag, [rev] otherwise. *)
Definition join_desc (tag : option string) (rev : string) : string :=
  match tag with
  | Some t => t +:+ "-" +:+ rev
  | None => rev
  end.

(** [_ensure_srpm] up to the call of [_rpm_verrel]: the two [describe]
    calls and the version and release they give. *)
Definition ensure_srpm_verrel (mirror : GitMirror) (w : world)
    (component : Component) : result (string * string) :=
  '(upstream_tag, upstream_rev, upstream_desc) ←
    match fields component !! "src" with
    | Some upstream_src =>
        upstream_rev ← getitem (fields component) "revision";
        '(upstream_tag, upstream_rev) ← describe mirror w upstream_src upstream_rev;
        Ok (upstream_tag, Some upstream_rev,
            Some (join_desc upstream_tag upstream_rev))
    | None => Ok (None, None, None)
    end;
  distgit_desc ←
    match distgit component with
    | Some distgit =>
        distgit_src ← getitem distgit "src";
        distgit_rev ← getitem distgit "revision";
        '(distgit_tag, distgit_rev) ← describe mirror w distgit_src distgit_rev;
        Ok (Some (join_desc distgit_tag distgit_rev))
    | None => Ok None
    end;
  let desc :=
    match upstream_desc with
    | Some s => if String.eqb s "" then distgit_desc else Some s
    | None => distgit_desc
    end in
  match desc with
  | None => Raise AssertionError
  | Some _ => _rpm_verrel component upstream_tag upstream_rev distgit_desc
  end.

(** The name [_ensure_srpm] gives the source package:
    ["{0}-{1}-{2}.temp.src.rpm".format(pkgname, rpm_version, rpm_release)]. *)
Definition _ensure_srpm (mirror : GitMirror) (w : world)
    (component : Component) : result string :=
  '(rpm_version, rpm_release) ← ensure_srpm_verrel mirror w component;
  pkgname ← getitem (fields component) "pkgname";
  Ok (pkgname +:+ "-" +:+ rpm_version +:+ "-" +:+ rpm_release
      +:+ ".temp.src.rpm").

(** *** The end of [run]: committing the snapshot *)

(** The three directories of the work directory that [run] touches, each a
    map from file name to contents when it exists, and the lines logged. *)
Record workdir : Type := {
  old_snapshotdir : option (gmap string string);
  snapshotdir : option (gmap string string);
  tmp_snapshotdir : option (gmap string string);
  touched : list string;
  logged : list string;
}.

(** Modelled from the spec: [utils.log] is not part of the sources at hand;
    it reports one message. *)
Definition log (msg : string) (w : workdir) : workdir :=
  {| old_snapshotdir := old_snapshotdir w;
     snapshotdir := snapshotdir w;
     tmp_snapshotdir := tmp_snapshotdir w;
     touched := touched w;
     logged := logged w ++ [msg] |}.

(** [cmp -s a b] exits with 0 exactly when both files have the same bytes. *)
Definition cmp (a b : string) : Z := if String.eqb a b then 0 else 1.

(** Lines 327 to 348 of [run]: [manifest] is the text [json.dump] writes,
    [workdir_path] is [self.workdir].
    Modelled from the spec: [utils.rmrf] is not part of the sources at
    hand; it removes a directory tree, and a path that does not exist is
    left alone. *)
Definition commit_snapshot (workdir_path manifest : string)
    (touch_if_changed : option string) (w : workdir) : result workdir :=
  match tmp_snapshotdir w with
  | None => Raise IOError
  | Some tmp =>
      let tmp := <["snapshot.json" := manifest]> tmp in
      (* rmrf(self.old_snapshotdir) *)
      let old : option (gmap string string) := None in
      let changed :=
        match snapshotdir w ≫= (.!! "snapshot.json") with
        | Some published => negb (cmp published manifest =? 0)
        | None => true
        end in
      if changed then
        match snapshotdir w with
        | None => Raise OSError
        | Some cur =>
            let w' := {| old_snapshotdir := Some cur;
                         snapshotdir := Some tmp;
                         tmp_snapshotdir := None;
                         touched := touched w;
                         logged := logged w |} in
            let w' := log ("Wrote: " +:+ workdir_path +:+ "/snapshot") w' in
            match touch_if_changed with
            | Some path =>
                if String.eqb path "" then Ok w'
                else
                  let w' := log ("Updated timestamp of " +:+ path) w' in
                  Ok {| old_snapshotdir := old_snapshotdir w';
                        snapshotdir := snapshotdir w';
                        tmp_snapshotdir := tmp_snapshotdir w';
                        touched := touched w' ++ [path];
                        logged := logged w' |}
            | None => Ok w'
            end
        end
      else
        Ok (log "No changes."
              {| old_snapshotdir := old;
                 snapshotdir := snapshotdir w;
                 tmp_snapshotdir := None;
                 touched := touched w;
                 logged := logged w |})
  end.

End TaskResolve.

(** ** What expansion yields, read off the component *)

Module ExpansionRules.
Import PyStr Git TaskResolve.

(** The component's derived name: "the explicit name, or the name derived
    from the upstream URL's last path segment, or the distgit name for
    distgit-only components". *)
Definition derived_name (self : task) (component : Component) : option string :=
  match fields component !! "name" with
  | Some n => Some n
  | None =>
      match fields component !! "src" with
      | Some src =>
          if String.eqb src "distgit"
          then distgit component ≫= (.!! "name")
          else Some (_url_to_projname (expand_alias (aliases self) src))
      | None => None
      end
  end.

(** Where the default of [pkgname] comes from: the [distgit] record's name
    for a distgit-only component; the derived name for a [spec: internal]
    component; otherwise the [distgit] record's own name when it has one,
    and the derived name when it has none. *)
Definition default_pkgname (self : task) (component : Component)
  : option string :=
  match fields component !! "src" with
  | Some src =>
      if String.eqb src "distgit" then distgit component ≫= (.!! "name")
      else if is_internal (fields component !! "spec")
           then derived_name self component
           else match distgit component ≫= (.!! "name") with
                | Some n => Some n
                | None => derived_name self component
                end
  | None => None
  end.

(** The first of [freeze], [branch] and [tag] that a record sets, and
    [master] when it sets none. *)
Definition selected_ref (d : gmap string string) : string :=
  match d !! "freeze" with
  | Some f => f
  | None =>
      match d !! "branch" with
      | Some b => b
      | None => default "master" (d !! "tag")
      end
  end.

(** What [_expand_component] does with a component, read off the component
    alone: it needs [src]; [spec], when present, must be [internal]; and
    [src: distgit] needs a [distgit] record with a [name]. *)
Inductive outcome : Type :=
  | Expands
  | Fails (e : exn).

Definition expected_outcome (component : Component) : outcome :=
  match fields component !! "src" with
  | None => Fails (SystemExit "Component {0} is missing 'src'")
  | Some src =>
      match fields component !! "spec" with
      | Some s =>
          if String.eqb s "internal" then
            if String.eqb src "distgit" then
              match distgit component with
              | None => Fails (SystemExit "Component {0} is missing 'distgit'")
              | Some d =>
                  match d !! "name" with
                  | None => Fails (SystemExit "Component {0} is missing 'distgit/name'")
                  | Some _ => Expands
                  end
              end
            else Expands
          else Fails (ValueError ("Unknown spec type " +:+ s))
      | None =>
          if String.eqb src "distgit" then
            match distgit component with
            | None => Fails (SystemExit "Component {0} is missing 'distgit'")
            | Some d =>
                match d !! "name" with
                | None => Fails (SystemExit "Component {0} is missing 'distgit/name'")
                | Some _ => Expands
                end
            end
          else Expands
      end
  end.

End ExpansionRules.

Import PyStr Git MirrorState TaskResolve ExpansionRules.

(** ** The relative-URL rule in the spec's words

    "Resolves any URL expressed relative to the parent ([../] segments)
    against the parent repository's own URL by walking up path segments":
    one trailing ['/']-separated segment of the parent goes for each leading
    [../], and what is left of the relative URL is appended. *)

Module UrlSegments.

(** The pieces of [s] between its ['/'] characters. *)
Fixpoint segments (s : string) : list string :=
  match s with
  | EmptyString => [EmptyString]
  | String c s' =>
      if Ascii.eqb c "/" then EmptyString :: segments s'
      else match segments s' with
           | seg :: rest => String c seg :: rest
           | [] => [String c EmptyString]
           end
  end.

Definition join_segments (l : list string) : string := String.concat "/" l.

(** How many [../] the relative URL starts with, and what follows them. *)
Fixpoint updirs (relpath : string) : nat * string :=
  match relpath with
  | String a (String b (String c rest)) =>
      if Ascii.eqb a "." && Ascii.eqb b "." && Ascii.eqb c "/"
      then (S (updirs rest).1, (updirs rest).2)
      else (O, relpath)
  | _ => (O, relpath)
  end.

(** Where the path of a URL starts: at the first ['/'] after the [://] of
    the scheme; [-1] when the URL has no scheme or no path. *)
Definition path_start (u : string) : Z := find u "/" (find u "://" 0 + 3).

(** The parent URL with the last [k] segments of its path removed, [k] the
    number of leading [../], and the remainder of the relative URL appended;
    [None] when the path has fewer than [k] segments. *)
Definition resolve_segments (parent relpath : string) : option string :=
  let first := path_start parent in
  if first =? -1 then None
  else
    let base := slice parent 0 first in
    let segs := segments (slice_from parent first) in
    let k := (updirs relpath).1 in
    let rest := (updirs relpath).2 in
    if (k <? length segs)%nat then
      let walked := base +:+ join_segments (take (length segs - k) segs) in
      Some (if String.eqb rest "" then walked else walked +:+ "/" +:+ rest)
    else None.

End UrlSegments.

Import UrlSegments.

(** ** Commit hashes and prefixes, in the spec's words *)

Module Shapes.

(** A lower-case hexadecimal digit, as [git] prints commit ids. *)
Definition is_hex (c : ascii) : bool :=
  let n := Z.of_N (N_of_ascii c) in
  ((48 <=? n) && (n <=? 57)) || ((97 <=? n) && (n <=? 102)).

(** "Commit-hash-shaped": hexadecimal digits only. *)
Fixpoint hash_shaped (s : string) : bool :=
  match s with
  | EmptyString => true
  | String c s' => is_hex c && hash_shaped s'
  end.

(** No character of [s] is [c]. *)
Fixpoint lacks (c : ascii) (s : string) : bool :=
  match s with
  | EmptyString => true
  | String d s' => negb (Ascii.eqb c d) && lacks c s'
  end.

(** [s] without its prefix [p], when [s] starts with [p]. *)
Fixpoint drop_prefix (p s : string) : option string :=
  match p, s with
  | EmptyString, _ => Some s
  | String _ _, EmptyString => None
  | String a p', String b s' =>
      if Ascii.eqb a b then drop_prefix p' s' else None
  end.

(** "Strips a leading [p]": once, and only at the very start. *)
Definition strip_once (p s : string) : string := default s (drop_prefix p s).

End Shapes.

Import Shapes.

(** ** Sample inputs *)

Module Samples.
Import Git TaskResolve.

Definition sample_task : task :=
  {| aliases := [ {| alias_name := "gh"; alias_url := "https://github.com/" |} ];
     _distgit_prefix := "pkgs" |}.

(** No [src], a [distgit] record with a name. *)
Definition distgit_named_only : Component :=
  {| fields := ∅; distgit := Some {[ "name" := "foo" ]} |}.

(** An upstream [src] and a [distgit] record that carries its own name. *)
Definition upstream_with_named_distgit : Component :=
  {| fields := {[ "src" := "https://example.org/foo.git" ]};
     distgit := Some {[ "name" := "bar" ]} |}.

(** Both [tag] and [branch] are given. *)
Definition tag_and_branch : Component :=
  {| fields := {[ "src" := "gh:grp/foo"; "tag" := "v1"; "branch" := "dev" ]};
     distgit := None |}.

Definition hash_a : string := "abcdef0123456789abcdef0123456789abcdef01".
Definition hash_b : string := "0123456789abcdef0123456789abcdef01234567".

Definition sample_mirror : GitMirror :=
  {| mirrordir := "/srv/src"; remotes := ∅ |}.

Definition describing (ref out : string) : mirror_entry :=
  {| entry_repo := {| repo_refs := ∅;
                      repo_describe := {[ ref := out ]};
                      repo_submodules := ∅ |};
     entry_origin := "";
     entry_stamp := None;
     entry_stamp_tmp := None |}.

(** Two mirrors: the upstream one is three commits past the tag [v1.2.0],
    the metadata one has no tag. *)
Definition described_world : world :=
  {| fs := {[ "/srv/src/https/example.org/foo" :=
                describing hash_a ("v1.2.0-3-g" +:+ hash_a +:+ newline);
              "/srv/src/https/example.org/rpms/foo" :=
                describing hash_b (hash_b +:+ newline) ]};
     trace := [] |}.

Definition resolved_component : Component :=
  {| fields := {[ "src" := "https://example.org/foo";
                  "revision" := hash_a;
                  "name" := "foo";
                  "pkgname" := "foo" ]};
     distgit := Some {[ "src" := "https://example.org/rpms/foo";
                        "revision" := hash_b;
                        "name" := "foo" ]} |}.

(** An application with one submodule, both reachable. *)
Definition app_remotes : gmap string repo :=
  {[ "https://example.org/app" :=
       {| repo_refs := {[ "master" := hash_a +:+ newline ]};
          repo_describe := ∅;
          repo_submodules :=
            {[ "master" := [ {| checksum := hash_b;
                                name := "lib";
                                url := "https://example.org/lib" |} ] ]} |};
     "https://example.org/lib" :=
       {| repo_refs := {[ hash_b := hash_b +:+ newline ]};
          repo_describe := ∅;
          repo_submodules := {[ hash_b := [] ]} |} ]}.

Definition app_mirror : GitMirror :=
  {| mirrordir := "/srv/src"; remotes := app_remotes |}.

Definition empty_world : world := {| fs := ∅; trace := [] |}.

(** A work directory after an earlier promotion: a published manifest, its
    backup, and a fresh staging directory. *)
Definition promoted_workdir : workdir :=
  {| old_snapshotdir := Some {[ "snapshot.json" := "{0}" ]};
     snapshotdir := Some {[ "snapshot.json" := "{1}" ]};
     tmp_snapshotdir := Some ∅;
     touched := [];
     logged := [] |}.

End Samples.

Import Samples.

(** ** More of [rdgo/git.py]: paths and the submodule listing *)

Module GitListing.
Import PyStr Git.

(** [s.rstrip(c)] for a single character [c]. *)
Fixpoint rstrip_char (c : ascii) (s : string) : string :=
  match s with
  | EmptyString => EmptyString
  | String d s' =>
      let r := rstrip_char c s' in
      if Ascii.eqb d c && String.eqb r "" then EmptyString else String d r
  end.

(** [s == c * len(s)] *)
Fixpoint all_char (c : ascii) (s : string) : bool :=
  match s with
  | EmptyString => true
  | String d s' => Ascii.eqb d c && all_char c s'
  end.

(** [os.path.basename] *)
Definition basename (p : string) : string :=
  let i := rfind p "/" + 1 in
  slice_from p i.

(** [os.path.dirname] *)
Definition dirname (p : string) : string :=
  let i := rfind p "/" + 1 in
  let head := slice p 0 i in
  if negb (String.eqb head "") && negb (all_char "/" head)
  then rstrip_char "/" head
  else head.

Definition path_with_suffix (path suffix : string) : string :=
  dirname path +:+ "/" +:+ basename path +:+ suffix.

(** [s.split(sep, maxsplit)] for a single character [sep]. *)
Fixpoint split_max (sep : ascii) (maxsplit : nat) (s : string) : list string :=
  match s with
  | EmptyString => [EmptyString]
  | String c s' =>
      match maxsplit with
      | O => [s]
      | S n =>
          if Ascii.eqb c sep then EmptyString :: split_max sep n s'
          else match split_max sep maxsplit s' with
               | part :: parts => String c part :: parts
               | [] => [String c EmptyString]
               end
      end
  end.

(** One round of the [for line in proc.stdout] loop of
    [_list_submodules_in], up to [sub_checksum, sub_name = parts[0:2]];
    [None] is [continue]. *)
Definition parse_status_line (line : string) : option (string * string) :=
  let line := strip line in
  if String.eqb line "" then None
  else
    let line := slice_from line 1 in
    let parts := split_max " " 2 line in
    if (length parts <? 2)%nat then None
    else match parts with
         | sub_checksum :: sub_name :: _ => Some (sub_checksum, sub_name)
         | _ => None
         end.

(** [_list_submodules_in] after the checkout: [lines] is the output of
    [git submodule status], [urls] what [git config -f .gitmodules
    submodule.<name>.url] prints for the names it knows. *)
Fixpoint _list_submodules_in (uri : string) (urls : gmap string string)
    (lines : list string) : result (list GitSubmodule) :=
  match lines with
  | [] => Ok []
  | line :: rest =>
      match parse_status_line line with
      | None => _list_submodules_in uri urls rest
      | Some (sub_checksum, sub_name) =>
          match urls !! sub_name with
          | None => Raise CalledProcessError
          | Some out =>
              let sub_url := strip out in
              sub_url ← (if startswith sub_url "../"
                          then make_absolute_url uri sub_url
                          else Ok sub_url);
              submodules ← _list_submodules_in uri urls rest;
              Ok ({| checksum := sub_checksum; name := sub_name;
                     url := sub_url |} :: submodules)
          end
      end
  end.

End GitListing.

Import GitListing.

(** ** More sample inputs *)

Module MoreSamples.
Import PyStr Git TaskResolve Samples.

Definition app_url : string := "https://example.org/app".
Definition lib_url : string := "https://example.org/lib".
Definition app_dir : string := "/srv/src/https/example.org/app".
Definition lib_dir : string := "/srv/src/https/example.org/lib".

(** The store after the application has been mirrored once. *)
Definition mirrored_world : world :=
  (mirror 3 app_mirror empty_world app_url "master" false).1.

(** A component without an upstream of its own. *)
Definition distgit_only : Component :=
  {| fields := {[ "src" := "distgit" ]};
     distgit := Some {[ "name" := "foo" ]} |}.

(** The clone of the library in that store. *)
Definition lib_entry : mirror_entry :=
  {| entry_repo := {| repo_refs := {[ hash_b := hash_b +:+ newline ]};
                      repo_describe := ∅;
                      repo_submodules := {[ hash_b := [] ]} |};
     entry_origin := lib_url;
     entry_stamp := Some (hash_b +:+ newline);
     entry_stamp_tmp := None |}.

End MoreSamples.

(** ** What a run of [mirror] adds to the trace *)

Module MirrorTrace.
Import Git.

Definition is_fetch (ev : event) : bool :=
  match ev with
  | EvFetch _ => true
  | _ => false
  end.

(** [w'] has the trace of [w] followed by further events, none of them a
    fetch unless [fetch] is set. *)
Definition appends (fetch : bool) (w w' : world) : Prop :=
  exists evs,
    trace w' = trace w ++ evs
    /\ (fetch = false -> forallb (fun ev => negb (is_fetch ev)) evs = true).

End MirrorTrace.

Import MirrorTrace.

(** ** The start of [run]: the staging directory *)

Module RunSteps.
Import PyStr Git TaskResolve.

(** [ensure_clean_dir(self.tmp_snapshotdir)] at the start of [run], and the
    source packages that [_generate_srpm] links into the directory before
    the manifest is written: [staged] is what the directory holds by then.
    Modelled from the spec: [utils.ensure_clean_dir] is not part of the
    sources at hand; it leaves an empty directory at the path. *)
Definition stage (staged : gmap string string) (w : workdir) : workdir :=
  {| old_snapshotdir := old_snapshotdir w;
     snapshotdir := snapshotdir w;
     tmp_snapshotdir := Some staged;
     touched := touched w;
     logged := logged w |}.

End RunSteps.

Import RunSteps.

Import MoreSamples.

(** * Facts about the string primitives *)

#[local] Arguments Ascii.eqb : simpl never.

Section string_facts.
Implicit Types (s a b p : string) (c d : ascii).

Lemma app_cons c a b : String c a +:+ b = String c (a +:+ b).
Proof. reflexivity. Qed.

Lemma app_nil_l a : "" +:+ a = a.
Proof. reflexivity. Qed.

Lemma str_length_app a b :
  String.length (a +:+ b) = (String.length a + String.length b)%nat.
Proof. induction a as [|c a IH]; simpl; [done | by rewrite IH]. Qed.

Lemma app_assoc_str a b s : (a +:+ b) +:+ s = a +:+ (b +:+ s).
Proof.
  induction a as [|c a IH]; [done |]. by rewrite !app_cons, IH.
Qed.

Lemma app_nil_r_str a : a +:+ "" = a.
Proof. induction a as [|c a IH]; [done |]. by rewrite app_cons, IH. Qed.

Lemma substring_0_all s : String.substring 0 (String.length s) s = s.
Proof. induction s as [|c s IH]; simpl; [done | by rewrite IH]. Qed.

Lemma substring_0_app a b :
  String.substring 0 (String.length a) (a +:+ b) = a.
Proof.
  induction a as [|c a IH].
  - by destruct b.
  - rewrite app_cons. simpl. by rewrite IH.
Qed.

Lemma substring_skip_app a b (m : nat) :
  String.substring (String.length a) m (a +:+ b) = String.substring 0 m b.
Proof. induction a as [|c a IH]; [done |]. rewrite app_cons. apply IH. Qed.

Lemma clamp_inside (n i : Z) : 0 <= i <= n -> clamp n i = i.
Proof. unfold clamp. intros H. destruct (Z.ltb_spec i 0); lia. Qed.

Lemma len_nonneg s : 0 <= len s.
Proof. unfold len. lia. Qed.

Lemma len_app a b : len (a +:+ b) = len a + len b.
Proof. unfold len. rewrite str_length_app. lia. Qed.

(** [(a + b)[0:len(a)] == a] *)
Lemma slice_0_app a b : slice (a +:+ b) 0 (len a) = a.
Proof.
  unfold slice. pose proof (len_nonneg a). pose proof (len_nonneg b).
  rewrite !clamp_inside by (rewrite len_app; lia).
  rewrite Z.sub_0_r. unfold len. rewrite Nat2Z.id. apply substring_0_app.
Qed.

(** [(a + b)[len(a):] == b] *)
Lemma slice_from_app a b : slice_from (a +:+ b) (len a) = b.
Proof.
  unfold slice_from, slice. pose proof (len_nonneg a). pose proof (len_nonneg b).
  rewrite !clamp_inside by (rewrite len_app; lia).
  rewrite len_app. replace (len a + len b - len a) with (len b) by lia.
  unfold len. rewrite !Nat2Z.id, substring_skip_app. apply substring_0_all.
Qed.

Lemma slice_from_0 s : slice_from s 0 = s.
Proof. apply (slice_from_app "" s). Qed.

Lemma prefix_app p s : String.prefix p (p +:+ s) = true.
Proof.
  induction p as [|c p IH]; [by destruct s |].
  rewrite app_cons. simpl. by destruct (ascii_dec c c).
Qed.

Lemma prefix_inv p s :
  String.prefix p s = true -> exists r, s = p +:+ r.
Proof.
  revert s. induction p as [|c p IH]; intros s H.
  - by exists s.
  - destruct s as [|d s]; simpl in H; [done |].
    destruct (ascii_dec c d) as [->|]; [| done].
    destruct (IH _ H) as [r ->]. by exists r.
Qed.

Lemma prefix_lacks c p s :
  lacks c s = true -> String.prefix (String c p) s = false.
Proof.
  destruct s as [|d s]; simpl; [done |].
  intros [Hc _]%andb_true_iff. destruct (ascii_dec c d) as [->|]; [| done].
  by rewrite Ascii.eqb_refl in Hc.
Qed.

Lemma rfind_nat_lacks c p s :
  lacks c s = true -> rfind_nat (String c p) s = None.
Proof.
  induction s as [|d s IH]; simpl; [done |].
  intros [Hc Hs]%andb_true_iff. rewrite (IH Hs).
  destruct (ascii_dec c d) as [->|]; [| done].
  by rewrite Ascii.eqb_refl in Hc.
Qed.

Lemma rfind_nat_None_lacks c s :
  rfind_nat (String c "") s = None -> lacks c s = true.
Proof.
  induction s as [|d s IH]; simpl; [done |].
  destruct (rfind_nat (String c "") s); [done |].
  destruct (ascii_dec c d) as [->|Hne].
  - by destruct s.
  - intros _. rewrite IH by done.
    destruct (Ascii.eqb_spec c d); [done | done].
Qed.

(** The last occurrence of a one-character string cuts [s] in two, the
    second part free of that character. *)
Lemma rfind_nat_char_Some c s (i : nat) :
  rfind_nat (String c "") s = Some i ->
  exists a b, s = a +:+ String c b /\ String.length a = i /\ lacks c b = true.
Proof.
  revert i. induction s as [|d s IH]; intros i; simpl; [done |].
  destruct (rfind_nat (String c "") s) as [j|] eqn:Hj.
  - intros [= <-]. destruct (IH j eq_refl) as (a & b & -> & <- & Hb).
    by exists (String d a), b.
  - destruct (ascii_dec c d) as [->|]; [| done].
    intros Hi. assert (i = 0%nat) as -> by (destruct s; simpl in Hi; congruence).
    exists "", s. split; [done |]. split; [done |].
    by apply rfind_nat_None_lacks.
Qed.

Lemma rfind_nat_app_last sub a r (i : nat) :
  rfind_nat sub r = Some i ->
  rfind_nat sub (a +:+ r) = Some (String.length a + i)%nat.
Proof.
  intros Hr. induction a as [|c a IH]; [done |].
  rewrite app_cons. simpl. by rewrite IH.
Qed.

End string_facts.

(** * Relative submodule URLs *)

Section relative_urls.
Implicit Types (s a b p : string) (c d : ascii).

Lemma segments_nonempty s : segments s <> [].
Proof.
  destruct s as [|c s]; simpl; [done |].
  destruct (Ascii.eqb c "/"); [done |]. by destruct (segments s).
Qed.

Lemma join_segments_cons_char c seg rest :
  join_segments (String c seg :: rest) = String c (join_segments (seg :: rest)).
Proof. unfold join_segments. simpl. by destruct rest. Qed.

(** Splitting at ['/'] and joining with ['/'] gives the string back. *)
Lemma join_segments_segments s : join_segments (segments s) = s.
Proof.
  induction s as [|c s IH]; simpl; [done |].
  destruct (Ascii.eqb_spec c "/") as [->|Hc].
  - unfold join_segments in *. simpl.
    pose proof (segments_nonempty s). destruct (segments s); [done |].
    by rewrite IH.
  - pose proof (segments_nonempty s). destruct (segments s) as [|seg rest]; [done |].
    by rewrite join_segments_cons_char, IH.
Qed.

Lemma segments_lacks s : lacks "/" s = true -> segments s = [s].
Proof.
  induction s as [|c s IH]; simpl; [done |].
  intros [Hc Hs]%andb_true_iff. rewrite Ascii.eqb_sym.
  revert Hc. destruct (Ascii.eqb "/" c); [done |]. by rewrite (IH Hs).
Qed.

Lemma segments_app_slash a b :
  segments (a +:+ String "/" b) = segments a ++ segments b.
Proof.
  induction a as [|c a IH]; [done |].
  rewrite app_cons. simpl. rewrite IH.
  destruct (Ascii.eqb c "/"); [done |].
  pose proof (segments_nonempty a). by destruct (segments a).
Qed.

(** A parent without ['/'] is a single segment. *)
Lemma rfind_slash_none p :
  rfind p "/" = -1 -> length (segments p) = 1%nat.
Proof.
  unfold rfind. destruct (rfind_nat "/" p) eqn:H; [lia |]. intros _.
  by rewrite segments_lacks by by apply rfind_nat_None_lacks.
Qed.

(** Cutting the parent at its last ['/'] removes its last segment. *)
Lemma rfind_slash_some p :
  rfind p "/" <> -1 ->
  segments (slice p 0 (rfind p "/"))
  = take (length (segments p) - 1) (segments p)
  /\ (2 <= length (segments p))%nat.
Proof.
  unfold rfind. destruct (rfind_nat "/" p) as [i|] eqn:H; [| done]. intros _.
  destruct (rfind_nat_char_Some _ _ _ H) as (a & b & -> & <- & Hb).
  change (Z.of_nat (String.length a)) with (len a).
  rewrite slice_0_app, segments_app_slash, (segments_lacks b Hb).
  rewrite length_app. simpl.
  pose proof (segments_nonempty a).
  replace (length (segments a) + 1 - 1)%nat with (length (segments a)) by lia.
  rewrite take_app_length. split; [done |].
  destruct (segments a); [done | simpl; lia].
Qed.

Lemma string_ind3 (P : string -> Prop) :
  (forall s,
      (forall (x y z : ascii) rest,
          s = String x (String y (String z rest)) -> P rest) ->
      P s) ->
  forall s, P s.
Proof.
  intros step s.
  assert (forall n s, (String.length s <= n)%nat -> P s) as H.
  { clear s. induction n as [|n IH]; intros s Hn; apply step;
      intros x y z rest ->; simpl in Hn; [lia |].
    apply IH. lia. }
  by apply (H (String.length s)).
Qed.

(** The loop of [make_absolute_url] removes one trailing segment of the
    parent for each leading [../], and stops with the [fatal] exit exactly
    when it would have to remove the last one. *)
Lemma walk_up_segments relpath : forall p,
  walk_up relpath p =
    if ((updirs relpath).1 <? length (segments p))%nat
    then Some (join_segments
                 (take (length (segments p) - (updirs relpath).1) (segments p)),
               (updirs relpath).2)
    else None.
Proof.
  induction relpath as [relpath IH] using string_ind3. intros p.
  assert (forall r : string,
            Some (p, r) =
              if (0 <? length (segments p))%nat
              then Some (join_segments
                           (take (length (segments p) - 0) (segments p)), r)
              else None) as Hstop.
  { intros r. pose proof (segments_nonempty p).
    destruct (Nat.ltb_spec 0 (length (segments p))).
    - by rewrite take_ge, join_segments_segments by lia.
    - destruct (segments p); simpl in *; [done | lia]. }
  destruct relpath as [|x [|y [|z rest]]]; try (by apply Hstop).
  simpl.
  destruct (Ascii.eqb x "." && Ascii.eqb y "." && Ascii.eqb z "/") eqn:Hdots;
    [| by apply Hstop].
  simpl. destruct (Z.eqb_spec (rfind p "/") (-1)) as [Hnone|Hsome].
  - rewrite (rfind_slash_none _ Hnone). by destruct (updirs rest).1.
  - destruct (rfind_slash_some _ Hsome) as [Hsegs Hlen].
    rewrite (IH x y z rest eq_refl), Hsegs.
    rewrite length_take, take_take.
    set (n := length (segments p)) in *. set (k := (updirs rest).1).
    replace ((n - 1) `min` n)%nat with (n - 1)%nat by lia.
    destruct (Nat.ltb_spec k (n - 1)), (Nat.ltb_spec (S k) n); try lia; [| done].
    by replace ((n - 1 - k) `min` (n - 1))%nat with (n - S k)%nat by lia.
Qed.

Lemma ascii_dec_eqb {A} x y (u v : A) :
  (if ascii_dec x y then u else v) = (if Ascii.eqb y x then u else v).
Proof.
  destruct (ascii_dec x y) as [->|Hne]; [by rewrite Ascii.eqb_refl |].
  destruct (Ascii.eqb_spec y x); [by subst | done].
Qed.

(** [walk_up] is the loop as the source writes it: test
    [relpath.startswith('../')], look for the last ['/'], then continue
    with [relpath[3:]] and [parent[0:i]]. *)
Lemma walk_up_loop relpath parent :
  walk_up relpath parent =
    if startswith relpath "../" then
      if rfind parent "/" =? -1 then None
      else walk_up (slice_from relpath 3) (slice parent 0 (rfind parent "/"))
    else Some (parent, relpath).
Proof.
  destruct relpath as [|x [|y [|z rest]]]; unfold startswith; simpl;
    rewrite ?ascii_dec_eqb; try done.
  - by destruct (Ascii.eqb x ".").
  - by destruct (Ascii.eqb x "."), (Ascii.eqb y ".").
  - replace (String.prefix "" rest) with true by by destruct rest.
    change (String x (String y (String z rest)))
      with (String x (String y (String z "")) +:+ rest) at 2.
    change 3 with (len (String x (String y (String z "")))).
    rewrite slice_from_app.
    by destruct (Ascii.eqb x "."), (Ascii.eqb y "."), (Ascii.eqb z "/").
Qed.

(** What [make_absolute_url] returns once its two assertions hold: the
    walked-up parent with the rest of the relative URL, behind the first
    [first_slash] characters of that walked-up parent. *)
Lemma make_absolute_url_unfold parent relpath :
  let p := if endswith parent "/" then slice parent 0 (-1) else parent in
  let first_slash := find p "/" (find p "://" 0 + 3) in
  find p "://" 0 <> -1 -> first_slash <> -1 ->
  make_absolute_url parent relpath =
    match walk_up relpath p with
    | None =>
        fatal ("Relative submodule path " +:+ relpath
               +:+ " is too long for parent " +:+ parent)
    | Some (walked, rest) =>
        Ok (slice walked 0 first_slash
            +:+ (if String.eqb rest "" then walked
                 else walked +:+ "/" +:+ rest))
    end.
Proof.
  intros p first_slash H1 H2. unfold make_absolute_url.
  fold p. destruct (Z.eqb_spec (find p "://" 0) (-1)); [done |].
  fold first_slash. destruct (Z.eqb_spec first_slash (-1)); [done |].
  destruct (walk_up relpath p) as [[walked rest]|]; [| done].
  destruct (String.eqb rest ""); [done |]. by rewrite app_assoc_str.
Qed.

Lemma find_nat_split sub s (i : nat) :
  find_nat sub s = Some i ->
  exists a b, s = a +:+ sub +:+ b /\ String.length a = i.
Proof.
  revert i. induction s as [|c s IH]; intros i; cbn [find_nat].
  - destruct sub; [| done]. intros [= <-]. by exists "", "".
  - destruct (String.prefix sub (String c s)) eqn:Hp.
    + intros [= <-]. destruct (prefix_inv _ _ Hp) as [r Hr]. by exists "", r.
    + destruct (find_nat sub s) as [j|]; [| done]. intros [= <-].
      destruct (IH j eq_refl) as (a & b & -> & <-). by exists (String c a), b.
Qed.

Lemma split_at s (n : nat) :
  (n <= String.length s)%nat ->
  exists a b, s = a +:+ b /\ String.length a = n.
Proof.
  revert n. induction s as [|c s IH]; intros [|n] Hn; simpl in Hn.
  - by exists "", "".
  - lia.
  - by exists "", (String c s).
  - destruct (IH n) as (a & b & -> & <-); [lia |]. by exists (String c a), b.
Qed.

(** A successful [find] cuts the string at the index it returns. *)
Lemma find_split s sub start :
  find s sub start <> -1 ->
  exists a b, s = a +:+ sub +:+ b /\ len a = find s sub start.
Proof.
  unfold find. destruct (Z.ltb_spec (len s) start) as [|Hstart]; [done |].
  pose proof (len_nonneg s) as Hlen.
  set (from := clamp (len s) start).
  assert (0 <= from <= len s) as Hfrom.
  { unfold from, clamp. destruct (Z.ltb_spec start 0); lia. }
  destruct (split_at s (Z.to_nat from)) as (x & y & -> & Hx);
    [unfold len in Hfrom; lia |].
  assert (len x = from) as <- by (unfold len; lia).
  rewrite slice_from_app.
  destruct (find_nat sub y) as [i|] eqn:Hi; [| done]. intros _.
  destruct (find_nat_split _ _ _ Hi) as (a & b & -> & <-).
  exists (x +:+ a), b. by rewrite app_assoc_str, len_app.
Qed.

Lemma join_segments_app l1 l2 :
  l1 <> [] ->
  join_segments (l1 ++ l2) = join_segments l1 +:+ join_segments ("" :: l2).
Proof.
  intros Hne. induction l1 as [|x [|y l1] IH]; [done | |].
  - destruct l2; simpl; [by rewrite app_nil_r_str | done].
  - change (join_segments ((x :: y :: l1) ++ l2))
      with (x +:+ "/" +:+ join_segments ((y :: l1) ++ l2)).
    rewrite IH by done.
    change (join_segments (x :: y :: l1))
      with (x +:+ "/" +:+ join_segments (y :: l1)).
    by rewrite !app_assoc_str.
Qed.

(** C1, as the code has it: for a parent URL (taken without one trailing
    ['/']) with a scheme and a path, and a relative URL with no more
    leading [../] than the parent's path has segments, the URL that
    [make_absolute_url] returns ends with the parent URL minus one trailing
    path segment per leading [../], followed by ['/'] and the remainder of
    the relative URL (nothing when the remainder is empty).  So [../other]
    against [https://example.org/grp/repo] stays under [/grp], and
    [../../x] against [https://example.org/a/b/c] under [/a]. *)
Theorem make_absolute_url_walks_up parent relpath resolved :
  let p := if endswith parent "/" then slice parent 0 (-1) else parent in
  find p "://" 0 <> -1 ->
  resolve_segments p relpath = Some resolved ->
  exists pre, make_absolute_url parent relpath = Ok (pre +:+ resolved).
Proof.
  intros p Hscheme. unfold resolve_segments, path_start.
  destruct (Z.eqb_spec (find p "/" (find p "://" 0 + 3)) (-1)) as [|Hpath];
    [done |].
  rewrite (make_absolute_url_unfold parent relpath Hscheme Hpath). fold p.
  destruct (find_split _ _ _ Hpath) as (base & path' & Hp & Hbase).
  rewrite <- Hbase, Hp, slice_0_app, slice_from_app.
  intros Hres. eexists. revert Hres.
  change ("/" +:+ path') with (String "/" path').
  rewrite walk_up_segments, segments_app_slash, length_app.
  change (segments (String "/" path')) with ("" :: segments path').
  cbn [length].
  set (k := (updirs relpath).1). set (m := length (segments path')).
  pose proof (segments_nonempty base) as Hb.
  assert (1 <= length (segments base))%nat
    by (destruct (segments base); [done | simpl; lia]).
  destruct (Nat.ltb_spec k (S m)); [| done].
  destruct (Nat.ltb_spec k (length (segments base) + m)); [| lia].
  rewrite take_app_ge by lia.
  replace (length (segments base) + m - k - length (segments base))%nat
    with (m - k)%nat by lia.
  replace (S m - k)%nat with (S (m - k)) by lia. cbn [take].
  rewrite join_segments_app, join_segments_segments by done.
  intros [= <-]. reflexivity.
Qed.

Lemma make_absolute_url_walks_up_witness :
  exists pre,
    make_absolute_url "https://example.org/grp/repo" "../other"
    = Ok (pre +:+ "https://example.org/grp/other").
Proof.
  apply (make_absolute_url_walks_up "https://example.org/grp/repo" "../other");
    [vm_compute; lia | reflexivity].
Defined.

(** The second example resolves under [/a]. *)
Lemma make_absolute_url_two_levels :
  exists pre,
    make_absolute_url "https://example.org/a/b/c" "../../x"
    = Ok (pre +:+ "https://example.org/a/x").
Proof. by exists "https://example.org". Qed.

(** The two examples of the spec: the resolved URLs are not
    [https://example.org/other] and [https://example.org/x]. *)
Lemma make_absolute_url_examples_differ :
  make_absolute_url "https://example.org/grp/repo" "../other"
    = Ok "https://example.orghttps://example.org/grp/other"
  /\ make_absolute_url "https://example.org/grp/repo" "../other"
    <> Ok "https://example.org/other"
  /\ make_absolute_url "https://example.org/a/b/c" "../../x"
    = Ok "https://example.orghttps://example.org/a/x"
  /\ make_absolute_url "https://example.org/a/b/c" "../../x"
    <> Ok "https://example.org/x".
Proof. repeat split; (vm_compute; congruence). Qed.

(** C8 at its example: the path of [https://example.org/repo] has one
    segment, so [../../x] asks for more than there is; the loop walks on
    into the host and the scheme, and the call returns a string instead of
    being fatal. *)
Theorem make_absolute_url_above_path_returns :
  resolve_segments "https://example.org/repo" "../../x" = None
  /\ make_absolute_url "https://example.org/repo" "../../x"
     = Ok "https:/https://x".
Proof. split; vm_compute; reflexivity. Qed.

(** The [fatal] exit is only reached once the scheme is used up as well. *)
Lemma make_absolute_url_fatal_example :
  make_absolute_url "https://example.org/repo" "../../../../x"
  = fatal "Relative submodule path ../../../../x is too long for parent https://example.org/repo".
Proof. vm_compute. reflexivity. Qed.

End relative_urls.

(** * Describe parsing *)

Section describe_parsing.
Implicit Types (s out tag rev : string).

Lemma is_hex_not_dash c : is_hex c = true -> Ascii.eqb "-" c = false.
Proof.
  intros H. destruct (Ascii.eqb_spec "-" c) as [<-|]; [| done].
  by vm_compute in H.
Qed.

Lemma hash_shaped_lacks_dash s : hash_shaped s = true -> lacks "-" s = true.
Proof.
  induction s as [|c s IH]; simpl; [done |].
  intros [Hc Hs]%andb_true_iff. by rewrite (is_hex_not_dash _ Hc), IH.
Qed.

(** The last ["-g"] of [tag-g<hash>] is the one in front of the hash. *)
Lemma rfind_dash_g tag rev :
  hash_shaped rev = true ->
  rfind (tag +:+ "-g" +:+ rev) "-g" = len tag.
Proof.
  intros Hrev%hash_shaped_lacks_dash. unfold rfind, len.
  rewrite (rfind_nat_app_last _ tag _ 0).
  - f_equal. lia.
  - change ("-g" +:+ rev) with (String "-" (String "g" rev)).
    cbn [rfind_nat]. rewrite rfind_nat_lacks by (simpl; by rewrite Hrev).
    change (String "-" (String "g" rev)) with ("-g" +:+ rev).
    by rewrite prefix_app.
Qed.

(** C3, as the code has it: a description of exactly 40 characters gives
    no tag and the description itself; a longer or shorter one that ends
    in [-g] and a commit-hash-shaped suffix is cut at that [-g], which is
    dropped: what precedes it (tag and commit count) is the first
    component and the hash alone the second. *)
Theorem parse_description_rule out :
  (len (strip out) = 40 ->
   parse_description out = Ok (None, strip out))
  /\ (forall tag rev,
        strip out = tag +:+ "-g" +:+ rev ->
        hash_shaped rev = true ->
        len (strip out) <> 40 ->
        parse_description out = Ok (Some tag, rev)).
Proof.
  unfold parse_description. split.
  - intros ->. done.
  - intros tag rev -> Hrev Hlen.
    destruct (Z.eqb_spec (len (tag +:+ "-g" +:+ rev)) 40); [done |].
    rewrite (rfind_dash_g _ _ Hrev).
    pose proof (len_nonneg tag). destruct (Z.leb_spec 0 (len tag)); [| lia].
    rewrite slice_0_app.
    replace (tag +:+ "-g" +:+ rev) with ((tag +:+ "-g") +:+ rev)
      by apply app_assoc_str.
    replace (len tag + 2) with (len (tag +:+ "-g"))
      by (rewrite len_app; done).
    by rewrite slice_from_app.
Qed.

Lemma parse_description_rule_witness :
  parse_description "abcdef0123456789abcdef0123456789abcdef01"
  = Ok (None, "abcdef0123456789abcdef0123456789abcdef01")
  /\ parse_description "v1.2.0-3-gabcdef0123456789abcdef0123456789abcdef01"
  = Ok (Some "v1.2.0-3", "abcdef0123456789abcdef0123456789abcdef01").
Proof.
  split.
  - apply (proj1 (parse_description_rule
                    "abcdef0123456789abcdef0123456789abcdef01")).
    reflexivity.
  - apply (proj2 (parse_description_rule
                    "v1.2.0-3-gabcdef0123456789abcdef0123456789abcdef01")
             "v1.2.0-3" "abcdef0123456789abcdef0123456789abcdef01");
      [reflexivity | reflexivity | vm_compute; lia].
Defined.

(** The example of the spec: the tag is not [v1.2.0] and the commit
    description is not [3-g<hash>]. *)
Lemma parse_description_example_differs :
  parse_description "v1.2.0-3-gabcdef0123456789abcdef0123456789abcdef01"
  <> Ok (Some "v1.2.0", "3-gabcdef0123456789abcdef0123456789abcdef01").
Proof. vm_compute. congruence. Qed.

End describe_parsing.

(** * Version strings *)

Section versions.
Implicit Types (s p rest tail : string).

Lemma drop_prefix_app p s : drop_prefix p (p +:+ s) = Some s.
Proof.
  induction p as [|c p IH]; [by destruct s |].
  rewrite app_cons. simpl. by rewrite Ascii.eqb_refl.
Qed.

Lemma drop_prefix_none p s :
  String.prefix p s = false -> drop_prefix p s = None.
Proof.
  revert s. induction p as [|c p IH]; intros s Hp.
  - by destruct s.
  - destruct s as [|d s]; simpl in *; [done |].
    rewrite ascii_dec_eqb, Ascii.eqb_sym in Hp.
    destruct (Ascii.eqb c d); [by apply IH | done].
Qed.

(** One round of [_strip_all_prefixes] strips the prefix once. *)
Lemma startswith_strip_once p s :
  (if startswith s p then slice_from s (len p) else s) = strip_once p s.
Proof.
  unfold startswith, strip_once.
  destruct (String.prefix p s) eqn:Hp.
  - destruct (prefix_inv _ _ Hp) as [r ->].
    by rewrite slice_from_app, drop_prefix_app.
  - by rewrite drop_prefix_none.
Qed.

(** [p-] never starts what is left of [p-...] once the first character of
    [p] is gone. *)
Lemma prefix_shifted c p tail :
  Ascii.eqb c "-" = false ->
  String.prefix (String c (p +:+ "-")) (p +:+ "-" +:+ tail) = false.
Proof.
  revert c. induction p as [|d p IH]; intros c Hc.
  - simpl. rewrite ascii_dec_eqb, Ascii.eqb_sym. by rewrite Hc.
  - rewrite !app_cons. simpl. rewrite ascii_dec_eqb.
    destruct (Ascii.eqb_spec d c) as [->|]; [by apply IH | done].
Qed.

Lemma rpm_verrel_version component pkgname upstream_tag upstream_rev distgit_desc :
  fields component !! "pkgname" = Some pkgname ->
  exists release,
    _rpm_verrel component upstream_tag upstream_rev distgit_desc
    = Ok (replace (strip_once (pkgname +:+ "-")
                     (strip_once "v" (or_else upstream_tag "0"))) "-" ".",
          release).
Proof.
  intros Hpkg. unfold _rpm_verrel, getitem. rewrite Hpkg.
  cbn [mbind result_bind _strip_all_prefixes].
  rewrite !startswith_strip_once. eauto.
Qed.

(** C10: the version is the upstream tag (["0"] without one) with a
    leading [v] stripped once, then a leading [<pkgname>-] stripped once,
    then every [-] turned into [.]; so when the package name itself starts
    with [v] and the tag is [<pkgname>-<tail>], the [v] of the package
    name goes first, [<pkgname>-] no longer matches, and the version
    keeps the rest of the package name: [vim] with tag [vim-3.0] gives
    [im.3.0]. *)
Theorem rpm_version_strips_in_order
    component pkgname upstream_tag upstream_rev distgit_desc :
  fields component !! "pkgname" = Some pkgname ->
  (exists release,
      _rpm_verrel component upstream_tag upstream_rev distgit_desc
      = Ok (replace (strip_once (pkgname +:+ "-")
                       (strip_once "v" (or_else upstream_tag "0"))) "-" ".",
            release))
  /\ (forall rest tail,
        pkgname = "v" +:+ rest ->
        upstream_tag = Some (pkgname +:+ "-" +:+ tail) ->
        exists release,
          _rpm_verrel component upstream_tag upstream_rev distgit_desc
          = Ok (replace (rest +:+ "-" +:+ tail) "-" ".", release)).
Proof.
  intros Hpkg.
  destruct (rpm_verrel_version component pkgname upstream_tag upstream_rev
              distgit_desc Hpkg) as [release Hrel].
  split; [by exists release |].
  intros rest tail -> ->. exists release. rewrite Hrel. do 2 f_equal.
  change (or_else (Some (("v" +:+ rest) +:+ "-" +:+ tail)) "0")
    with ("v" +:+ (rest +:+ "-" +:+ tail)).
  unfold strip_once at 2. rewrite drop_prefix_app. simpl.
  unfold strip_once. rewrite drop_prefix_none; [done |].
  change (("v" +:+ rest) +:+ "-") with (String "v" (rest +:+ "-")).
  by apply prefix_shifted.
Qed.

Lemma rpm_version_strips_in_order_witness :
  exists release,
    _rpm_verrel {| fields := {[ "pkgname" := "vim" ]}; distgit := None |}
      (Some "vim-3.0") (Some "abcdef0123456789abcdef0123456789abcdef01") None
    = Ok ("im.3.0", release).
Proof.
  destruct (rpm_version_strips_in_order
              {| fields := {[ "pkgname" := "vim" ]}; distgit := None |}
              "vim" (Some "vim-3.0")
              (Some "abcdef0123456789abcdef0123456789abcdef01") None)
    as [_ H]; [reflexivity |].
  apply (H "im" "3.0"); reflexivity.
Defined.

End versions.

(** * Component expansion *)

Section expansion.
Implicit Types (d f : gmap string string) (c : Component) (self : task).

Lemma ensure_key_or_eq d key value :
  _ensure_key_or d key value
  = (<[key := default value (d !! key)]> d, default value (d !! key)).
Proof.
  unfold _ensure_key_or. destruct (d !! key) eqn:H; simpl; [| done].
  by rewrite insert_id.
Qed.

Lemma expand_distgit_eq self d pkgname_default :
  let name := default pkgname_default (d !! "name") in
  let src := default (_distgit_prefix self +:+ ":" +:+ name) (d !! "src") in
  expand_distgit self d pkgname_default
  = Ok (default_branch
          (<["src" := expand_alias (aliases self) src]> (<["name" := name]> d)),
        name).
Proof.
  intros name src. unfold expand_distgit.
  rewrite ensure_key_or_eq. fold name. unfold getitem.
  rewrite lookup_insert_eq. cbn [mbind result_bind].
  rewrite ensure_key_or_eq, lookup_insert_ne by done. fold src.
  unfold _expand_srckey, getitem. rewrite !lookup_insert_eq.
  cbn [mbind result_bind]. by rewrite !insert_insert_eq.
Qed.

Lemma default_branch_lookup d key :
  key <> "branch" -> default_branch d !! key = d !! key.
Proof.
  intros H. unfold default_branch. destruct (d !! "tag"); [done |].
  by rewrite lookup_insert_ne.
Qed.

Lemma default_branch_branch d :
  default_branch d !! "branch"
  = match d !! "tag" with
    | Some _ => d !! "branch"
    | None => Some (default "master" (d !! "branch"))
    end.
Proof.
  unfold default_branch. destruct (d !! "tag"); [done |].
  by rewrite lookup_insert_eq.
Qed.

(** Runs [_expand_component] symbolically: every test the function makes
    becomes a case, and the helper calls are replaced by their results. *)
Ltac expand_step :=
  first
    [ progress cbn [mbind result_bind is_internal negb set_fields set_distgit
                    fields distgit fatal expected_outcome]
    | rewrite ensure_key_or_eq
    | rewrite expand_distgit_eq
    | progress unfold _expand_srckey, getitem
    | match goal with
      | H : ?x = _ |- context [match ?x with _ => _ end] => rewrite H
      | |- context [String.eqb ?a ?b] =>
          destruct (String.eqb_spec a b); try subst a
      | |- context [match ?x with _ => _ end] => destruct x eqn:?
      end ].

Ltac expand_component_cases :=
  unfold _expand_component; repeat expand_step.

(** C7, as the code has it: expansion is fatal whenever the component has no
    [src], whatever its [distgit] record holds; with a [src], a [spec] other
    than [internal] is a [ValueError]; with [src: distgit] the [distgit]
    record and its [name] are required and their absence is fatal; every
    other component expands without error. *)
Theorem expand_component_outcome self c :
  match expected_outcome c with
  | Expands => exists c', _expand_component self c = Ok c'
  | Fails e => _expand_component self c = Raise e
  end.
Proof.
  unfold expected_outcome. expand_component_cases; eauto;
    unfold fatal; congruence.
Qed.

Lemma default_empty_lookup (o : option (gmap string string)) (key : string) :
  default ∅ o !! key = o ≫= (.!! key).
Proof. destruct o; [done | apply lookup_empty]. Qed.

(** A named [distgit] record does not make up for a missing [src]. *)
Lemma expand_component_needs_src :
  distgit distgit_named_only ≫= (.!! "name") = Some "foo"
  /\ _expand_component sample_task distgit_named_only
     = fatal "Component {0} is missing 'src'".
Proof. split; reflexivity. Qed.

Ltac map_lookups :=
  repeat first
    [ rewrite lookup_insert_eq
    | rewrite default_branch_branch
    | rewrite default_branch_lookup by done
    | rewrite lookup_insert_ne by done
    | rewrite lookup_delete_ne by done
    | rewrite lookup_delete_eq
    | rewrite lookup_empty ].

(** C9, as the code has it: without an explicit [pkgname], an expanded
    component gets as [pkgname] the name of its [distgit] record when it is
    distgit-only, its derived name when it is [spec: internal], and
    otherwise the [distgit] record's own name if that record has one, the
    derived name only if it has none.  The component's [name] is the derived
    name in every case. *)
Theorem expand_component_pkgname self c c' :
  _expand_component self c = Ok c' ->
  fields c !! "pkgname" = None ->
  fields c' !! "name" = derived_name self c
  /\ fields c' !! "pkgname" = default_pkgname self c.
Proof.
  intros Hexp Hpkg. revert Hexp.
  unfold default_pkgname, derived_name.
  expand_component_cases; intros [= <-];
    cbn [fields distgit set_fields set_distgit];
    map_lookups; rewrite ?Hpkg, ?default_empty_lookup;
    cbn [default mbind option_bind];
    repeat match goal with
      | H : ?x = _ |- context [?x] => rewrite H
      end; cbn [default mbind option_bind]; try done.
Qed.

Lemma expand_component_pkgname_witness :
  match _expand_component sample_task upstream_with_named_distgit with
  | Ok c' => fields c' !! "name" = Some "foo"
             /\ fields c' !! "pkgname" = Some "bar"
  | Raise _ => False
  end.
Proof.
  destruct (_expand_component sample_task upstream_with_named_distgit)
    as [c'|e] eqn:Hexp; [| by vm_compute in Hexp].
  apply (expand_component_pkgname sample_task upstream_with_named_distgit c' Hexp).
  reflexivity.
Defined.

(** With a [distgit] record that has a name of its own, the default of
    [pkgname] is that name and not the component's derived name. *)
Lemma pkgname_is_not_derived_name :
  fields upstream_with_named_distgit !! "pkgname" = None
  /\ derived_name sample_task upstream_with_named_distgit = Some "foo"
  /\ match _expand_component sample_task upstream_with_named_distgit with
     | Ok c' => fields c' !! "pkgname" = Some "bar"
                /\ fields c' !! "pkgname" <> fields c' !! "name"
     | Raise _ => False
     end.
Proof. vm_compute. repeat split; congruence. Qed.

Lemma mirror_ref_eq d :
  mirror_ref d
  = match d !! "freeze" with
    | Some f => Some f
    | None =>
        match d !! "branch" with
        | Some b => Some b
        | None => d !! "tag"
        end
    end.
Proof.
  unfold mirror_ref, _one_of_keys, first_of_keys.
  by destruct (d !! "freeze"), (d !! "branch"), (d !! "tag").
Qed.

(** C5, as the code has it: the ref handed to [mirror] is the first of
    [freeze], [branch] and [tag] that the record sets, in that order, so a
    [branch] wins over a [tag]; expansion adds [branch: master] only to a
    record without a [tag], which makes [master] the ref of a record that
    sets none of the three.  This holds for the component and, unless it is
    [spec: internal], for its [distgit] record. *)
Theorem expanded_component_refs self c c' :
  _expand_component self c = Ok c' ->
  mirror_ref (fields c') = Some (selected_ref (fields c))
  /\ (is_internal (fields c !! "spec") = false ->
      mirror_ref <$> distgit c'
      = Some (Some (selected_ref (default ∅ (distgit c))))).
Proof.
  intros Hexp. revert Hexp. unfold selected_ref.
  expand_component_cases; intros [= <-];
    cbn [fields distgit set_fields set_distgit fmap option_fmap option_map
         is_internal];
    rewrite ?mirror_ref_eq; map_lookups;
    repeat match goal with
      | H : distgit ?c = _ |- context [distgit ?c] => rewrite H
      end;
    cbn [default id];
    (split; [| try done; intros _; do 2 f_equal]).
  all: repeat match goal with
         | |- context [?m !! ?k] => destruct (m !! k) eqn:?
         end; cbn [default id] in *; rewrite ?lookup_empty in *; congruence.
Qed.

Lemma expanded_component_refs_witness :
  match _expand_component sample_task tag_and_branch with
  | Ok c' => mirror_ref (fields c') = Some "dev"
  | Raise _ => False
  end.
Proof.
  destruct (_expand_component sample_task tag_and_branch)
    as [c'|e] eqn:Hexp; [| by vm_compute in Hexp].
  exact (proj1 (expanded_component_refs sample_task tag_and_branch c' Hexp)).
Defined.

(** A component that gives both a [tag] and a [branch] is mirrored at the
    branch. *)
Lemma tag_does_not_win_over_branch :
  match _expand_component sample_task tag_and_branch with
  | Ok c' => fields c' !! "tag" = Some "v1"
             /\ fields c' !! "branch" = Some "dev"
             /\ mirror_ref (fields c') = Some "dev"
             /\ mirror_ref (fields c') <> Some "v1"
  | Raise _ => False
  end.
Proof. vm_compute. repeat split; congruence. Qed.

End expansion.

(** * Release strings *)

Section releases.
Implicit Types (mirror : GitMirror) (w : world) (component : Component).

(** C6, as the code has it: for a component with an upstream repository
    and a metadata repository, the release is the upstream revision that
    [describe] returns (the commit hash; the upstream tag, present or not,
    is no part of it), then ['.'], then the metadata description (tag and
    revision joined by ['-'], or the bare revision) with every ['-'] of the
    metadata description replaced by ['.']. *)
Theorem release_of_two_repositories
    mirror w component upstream_src revision upstream_tag upstream_rev
    d distgit_src distgit_revision distgit_tag distgit_rev pkgname :
  fields component !! "src" = Some upstream_src ->
  fields component !! "revision" = Some revision ->
  describe mirror w upstream_src revision = Ok (upstream_tag, upstream_rev) ->
  distgit component = Some d ->
  d !! "src" = Some distgit_src ->
  d !! "revision" = Some distgit_revision ->
  describe mirror w distgit_src distgit_revision = Ok (distgit_tag, distgit_rev) ->
  fields component !! "pkgname" = Some pkgname ->
  upstream_rev <> "" ->
  exists rpm_version,
    ensure_srpm_verrel mirror w component
    = Ok (rpm_version,
          upstream_rev +:+ "." +:+ replace (join_desc distgit_tag distgit_rev) "-" ".").
Proof.
  intros Hsrc Hrev Hup Hd Hdsrc Hdrev Hdist Hpkg Hne.
  unfold ensure_srpm_verrel, getitem.
  rewrite Hsrc, Hrev. cbn [mbind result_bind]. rewrite Hup.
  cbn [mbind result_bind]. rewrite Hd, Hdsrc, Hdrev.
  cbn [mbind result_bind]. rewrite Hdist. cbn [mbind result_bind].
  assert (exists s, (if String.eqb (join_desc upstream_tag upstream_rev) ""
                     then Some (join_desc distgit_tag distgit_rev)
                     else Some (join_desc upstream_tag upstream_rev)) = Some s)
    as [s ->] by (destruct (String.eqb _ ""); eauto).
  unfold _rpm_verrel, getitem. rewrite Hpkg. cbn [mbind result_bind or_else].
  apply String.eqb_neq in Hne. rewrite Hne. cbn [negb]. rewrite Hne. cbn [negb].
  eexists. by rewrite app_assoc_str.
Qed.

Lemma release_of_two_repositories_witness :
  exists rpm_version,
    ensure_srpm_verrel sample_mirror described_world resolved_component
    = Ok (rpm_version, hash_a +:+ "." +:+ hash_b).
Proof.
  apply (release_of_two_repositories sample_mirror described_world
           resolved_component "https://example.org/foo" hash_a
           (Some "v1.2.0-3") hash_a
           {[ "src" := "https://example.org/rpms/foo";
              "revision" := hash_b; "name" := "foo" ]}
           "https://example.org/rpms/foo" hash_b None hash_b "foo");
    try reflexivity.
  vm_compute. congruence.
Defined.

(** With the upstream three commits past [v1.2.0], the release starts with
    the upstream hash, not with the tag. *)
Lemma release_has_no_upstream_tag :
  describe sample_mirror described_world "https://example.org/foo" hash_a
    = Ok (Some "v1.2.0-3", hash_a)
  /\ describe sample_mirror described_world "https://example.org/rpms/foo" hash_b
    = Ok (None, hash_b)
  /\ ensure_srpm_verrel sample_mirror described_world resolved_component
    = Ok ("1.2.0.3", hash_a +:+ "." +:+ hash_b)
  /\ ensure_srpm_verrel sample_mirror described_world resolved_component
    <> Ok ("1.2.0.3",
           replace (join_desc (Some "v1.2.0-3") hash_a +:+ "."
                    +:+ join_desc None hash_b) "-" ".").
Proof. vm_compute. repeat split; congruence. Qed.

End releases.

(** * Committing the snapshot *)

Section snapshot_commit.
Implicit Types (w : workdir) (manifest : string).

(** C2, as the code has it: the backup directory [old-snapshot] is removed
    at the start of every commit.  A staging manifest with the same bytes as
    the published one then leaves the published directory as it is, removes
    the staging directory and logs "No changes."; a staging manifest with
    other bytes makes the published directory the new [old-snapshot] and the
    staging directory (with the manifest in it) the published one. *)
Theorem commit_snapshot_outcome workdir_path manifest touch_if_changed w tmp cur published :
  tmp_snapshotdir w = Some tmp ->
  snapshotdir w = Some cur ->
  cur !! "snapshot.json" = Some published ->
  exists w',
    commit_snapshot workdir_path manifest touch_if_changed w = Ok w'
    /\ tmp_snapshotdir w' = None
    /\ if String.eqb published manifest then
         snapshotdir w' = Some cur
         /\ old_snapshotdir w' = None
         /\ logged w' = logged w ++ ["No changes."]
         /\ touched w' = touched w
       else
         snapshotdir w' = Some (<["snapshot.json" := manifest]> tmp)
         /\ old_snapshotdir w' = Some cur
         /\ exists more,
             logged w' = logged w ++ ("Wrote: " +:+ workdir_path +:+ "/snapshot") :: more.
Proof.
  intros Htmp Hcur Hpub. unfold commit_snapshot, cmp.
  rewrite Htmp, Hcur. cbn [mbind option_bind]. rewrite Hpub.
  destruct (String.eqb published manifest); cbn [negb Z.eqb].
  - eexists. split; [done |]. by cbn.
  - destruct touch_if_changed as [path|]; [destruct (String.eqb path "") |];
      (eexists; split; [done |]); cbn; repeat (split; [done |]);
      eexists; rewrite <- ?app_assoc; reflexivity.
Qed.

Lemma commit_snapshot_outcome_witness :
  exists w',
    commit_snapshot "/work" "{1}" None promoted_workdir = Ok w'
    /\ tmp_snapshotdir w' = None
    /\ snapshotdir w' = Some {[ "snapshot.json" := "{1}" ]}
    /\ old_snapshotdir w' = None
    /\ logged w' = ["No changes."]
    /\ touched w' = [].
Proof.
  apply (commit_snapshot_outcome "/work" "{1}" None promoted_workdir
           ∅ {[ "snapshot.json" := "{1}" ]} "{1}"); reflexivity.
Defined.

(** A run that changes nothing still removes the backup of the run before. *)
Lemma unchanged_run_removes_old_snapshot :
  old_snapshotdir promoted_workdir = Some {[ "snapshot.json" := "{0}" ]}
  /\ match commit_snapshot "/work" "{1}" None promoted_workdir with
     | Ok w' => snapshotdir w' = snapshotdir promoted_workdir
                /\ logged w' = ["No changes."]
                /\ old_snapshotdir w' = None
                /\ old_snapshotdir w' <> old_snapshotdir promoted_workdir
     | Raise _ => False
     end.
Proof. vm_compute. repeat split; congruence. Qed.

End snapshot_commit.

(** * Mirroring and the cache stamp *)

Section stripping.
Implicit Types (s : string) (c : ascii).

Lemma rstrip_app_space s c :
  is_space c = true -> rstrip (s +:+ String c "") = rstrip s.
Proof.
  intros Hc. induction s as [|d s IH].
  - simpl. by rewrite Hc.
  - rewrite app_cons. simpl. by rewrite IH.
Qed.

Lemma rstrip_idem s : rstrip (rstrip s) = rstrip s.
Proof.
  induction s as [|c s IH]; simpl; [done |].
  destruct (is_space c && String.eqb (rstrip s) "") eqn:H; simpl; [done |].
  by rewrite IH, H.
Qed.

Lemma lstrip_idem s : lstrip (lstrip s) = lstrip s.
Proof.
  induction s as [|c s IH]; simpl; [done |].
  destruct (is_space c) eqn:H; simpl; [done |]. by rewrite H.
Qed.

Lemma lstrip_rstripped s : rstrip s = s -> rstrip (lstrip s) = lstrip s.
Proof.
  induction s as [|c s IH]; simpl; [done |].
  destruct (is_space c) eqn:Hc; simpl.
  - destruct (String.eqb (rstrip s) ""); [done |]. intros [= H]. by apply IH.
  - rewrite Hc. simpl. done.
Qed.

(** Reading back a stamp gives the revision that was written: the revision
    is itself stripped output of [git rev-parse]. *)
Lemma strip_stamp out : strip (strip out +:+ newline) = strip out.
Proof.
  unfold strip at 1. unfold newline.
  rewrite rstrip_app_space by reflexivity.
  unfold strip. by rewrite lstrip_rstripped, lstrip_idem by apply rstrip_idem.
Qed.

End stripping.

Section mirroring.
Variable self : GitMirror.
Implicit Types (w : world) (e : mirror_entry) (dir rev : string).

Lemma repos_kept_refl w : repos_kept w w.
Proof. intros dir e H. eauto. Qed.

Lemma repos_kept_trans w1 w2 w3 :
  repos_kept w1 w2 -> repos_kept w2 w3 -> repos_kept w1 w3.
Proof.
  intros H12 H23 dir e H.
  destruct (H12 _ _ H) as (e2 & H2 & Hr2).
  destruct (H23 _ _ H2) as (e3 & H3 & Hr3).
  exists e3. split; [done | congruence].
Qed.

Lemma repos_kept_emit w ev : repos_kept w (emit ev w).
Proof. intros dir e H. exists e. split; [exact H | done]. Qed.

Lemma repos_kept_set_new w dir e :
  fs w !! dir = None -> repos_kept w (set_entry dir e w).
Proof.
  intros Hnone dir' e' H. exists e'. split; [| done].
  cbn. rewrite lookup_insert_ne; [done | congruence].
Qed.

Lemma repos_kept_set_same w dir e e' :
  fs w !! dir = Some e -> entry_repo e' = entry_repo e ->
  repos_kept w (set_entry dir e' w).
Proof.
  intros Hsome Hrepo dir' e0 H. cbn.
  destruct (decide (dir = dir')) as [<-|Hne].
  - rewrite lookup_insert_eq. exists e'. split; [done | congruence].
  - rewrite lookup_insert_ne by done. eauto.
Qed.

Lemma write_stamp_keeps dir rev w w' res :
  write_stamp dir rev w = (w', res) -> repos_kept w w'.
Proof.
  unfold write_stamp. destruct (fs w !! dir) as [e|] eqn:He; intros [= <- <-].
  - eapply repos_kept_trans; [| apply repos_kept_emit].
    eapply repos_kept_trans.
    + by apply (repos_kept_set_same w dir e
                  {| entry_repo := entry_repo e;
                     entry_origin := entry_origin e;
                     entry_stamp := entry_stamp e;
                     entry_stamp_tmp := Some (rev +:+ newline) |}).
    + eapply repos_kept_set_same; [apply lookup_insert_eq | done].
  - apply repos_kept_refl.
Qed.

Lemma mirror_modules_keeps
    (rec : world -> string -> string -> bool -> world * result string) :
  (forall w u r w' res, rec w u r false = (w', res) -> repos_kept w w') ->
  forall modules w w' res,
    mirror_modules rec w modules false = (w', res) -> repos_kept w w'.
Proof.
  intros Hrec. induction modules as [|m modules IH]; intros w w' res; simpl.
  - intros [= <- <-]. apply repos_kept_refl.
  - destruct (rec (emit (EvProcessing m) w) (url m) (checksum m) false)
      as [w1 [rev|e]] eqn:Hm.
    + intros H. eapply repos_kept_trans; [| by eapply IH].
      eapply repos_kept_trans; [apply repos_kept_emit | by eapply Hrec].
    + intros [= <- <-].
      eapply repos_kept_trans; [apply repos_kept_emit | by eapply Hrec].
Qed.

Lemma ensure_mirror_keeps url dir w w' res :
  ensure_mirror self url dir false w = (w', res) -> repos_kept w w'.
Proof.
  unfold ensure_mirror, clone_mirror.
  destruct (fs w !! dir) as [e|] eqn:He.
  - intros [= <- <-]. apply repos_kept_refl.
  - destruct (remotes self !! _strip_file_url url); intros [= <- <-].
    + eapply repos_kept_trans; [| apply repos_kept_emit].
      by apply repos_kept_set_new.
    + apply repos_kept_refl.
Qed.

Lemma mirror_revision_keeps
    (rec : world -> string -> string -> bool -> world * result string) :
  (forall w u r w' res, rec w u r false = (w', res) -> repos_kept w w') ->
  forall w dir url ref w' res,
    mirror_revision rec w dir url ref false = (w', res) -> repos_kept w w'.
Proof.
  intros Hrec w dir url ref w' res. unfold mirror_revision.
  destruct (_git_revparse w dir ref) as [rev|e];
    [| intros [= <- <-]; apply repos_kept_refl].
  destruct (stamp_matches w dir rev);
    [intros [= <- <-]; apply repos_kept_refl |].
  destruct (_list_submodules w dir url ref) as [modules|e];
    [| intros [= <- <-]; apply repos_kept_refl].
  destruct (mirror_modules rec w modules false) as [w1 [[]|e]] eqn:Hmods;
    [| intros [= <- <-]; by eapply mirror_modules_keeps].
  destruct (write_stamp dir rev w1) as [w2 [[]|e]] eqn:Hstamp;
    intros [= <- <-];
    (eapply repos_kept_trans;
     [by eapply mirror_modules_keeps | by eapply write_stamp_keeps]).
Qed.

(** Without [fetch], mirroring only adds clones and stamps: no clone that
    is already there changes. *)
Lemma mirror_keeps_repos depth : forall w url ref w' res,
  mirror depth self w url ref false = (w', res) -> repos_kept w w'.
Proof.
  induction depth as [|depth IH]; intros w url ref w' res; cbn [mirror].
  { intros [= <- <-]. apply repos_kept_refl. }
  destruct (_get_mirrordir self url "") as [dir|e];
    [| intros [= <- <-]; apply repos_kept_refl].
  destruct (ensure_mirror self url dir false w) as [w1 [[]|e]] eqn:Hens;
    [| intros [= <- <-]; by eapply ensure_mirror_keeps].
  intros H. eapply repos_kept_trans; [by eapply ensure_mirror_keeps |].
  by eapply mirror_revision_keeps.
Qed.

Lemma mirror_revision_post
    (rec : world -> string -> string -> bool -> world * result string) :
  (forall w u r w' res, rec w u r false = (w', res) -> repos_kept w w') ->
  forall w dir url ref w' rev,
    mirror_revision rec w dir url ref false = (w', Ok rev) ->
    stamped w' dir ref rev /\ (w' = w \/ stamp_written_last w' dir rev).
Proof.
  intros Hrec w dir url ref w' rev. unfold mirror_revision, _git_revparse.
  destruct (fs w !! dir) as [e|] eqn:He; [| done].
  destruct (repo_refs (entry_repo e) !! ref) as [out|] eqn:Hout; [| done].
  destruct (stamp_matches w dir (strip out)) eqn:Hhit.
  - intros [= <- <-]. split; [| by left].
    unfold stamp_matches in Hhit. rewrite He in Hhit.
    destruct e as [r o [content|] t]; [| done].
    apply String.eqb_eq in Hhit. by eexists _, out, content.
  - destruct (_list_submodules w dir url ref) as [modules|]; [| done].
    destruct (mirror_modules rec w modules false) as [w1 [[]|]] eqn:Hmods;
      [| done].
    destruct (mirror_modules_keeps rec Hrec _ _ _ _ Hmods _ _ He)
      as (e1 & He1 & Hrepo).
    unfold write_stamp. rewrite He1. intros [= <- <-]. split; [| right].
    + eexists _, out, _. cbn. rewrite lookup_insert_eq.
      split; [done |]. cbn. rewrite Hrepo.
      split; [done |]. split; [done |]. split; [done |]. apply strip_stamp.
    + eexists _, _. cbn. rewrite lookup_insert_eq. done.
Qed.

(** A submodule that fails to mirror ends the call before the stamp is
    written: the state is the one the failing submodule left. *)
Lemma mirror_revision_submodule_failure
    (rec : world -> string -> string -> bool -> world * result string)
    w dir url ref fetch rev modules w1 (err : exn) :
  _git_revparse w dir ref = Ok rev ->
  stamp_matches w dir rev = false ->
  _list_submodules w dir url ref = Ok modules ->
  mirror_modules rec w modules fetch = (w1, Raise err) ->
  mirror_revision rec w dir url ref fetch = (w1, Raise err).
Proof.
  intros Hrev Hmiss Hlist Hmods. unfold mirror_revision.
  by rewrite Hrev, Hmiss, Hlist, Hmods.
Qed.

Lemma mirror_post depth w url ref w' rev :
  mirror depth self w url ref false = (w', Ok rev) ->
  exists dir,
    _get_mirrordir self url "" = Ok dir
    /\ stamped w' dir ref rev
    /\ (trace w' = trace w \/ stamp_written_last w' dir rev).
Proof.
  destruct depth as [|depth]; cbn [mirror]; [done |].
  destruct (_get_mirrordir self url "") as [dir|]; [| done].
  destruct (ensure_mirror self url dir false w) as [w1 [[]|]] eqn:Hens; [| done].
  intros H. exists dir. split; [done |].
  destruct (mirror_revision_post _ (mirror_keeps_repos depth) _ _ _ _ _ _ H)
    as [Hst [->|Hlast]]; [| by auto].
  split; [done |]. revert Hens. unfold ensure_mirror, clone_mirror.
  destruct (fs w !! dir) as [e|] eqn:He; [intros [= <-]; by left |].
  destruct (remotes self !! _strip_file_url url); [| done]. intros [= <-].
  destruct Hst as (e & out & content & He' & _ & _ & Hstamp & _).
  cbn in He'. rewrite lookup_insert_eq in He'. by injection He' as <-.
Qed.

(** A stamped mirror answers at once, whatever the depth left. *)
Lemma mirror_cached depth w url ref dir rev :
  _get_mirrordir self url "" = Ok dir ->
  stamped w dir ref rev ->
  mirror (S depth) self w url ref false = (w, Ok rev).
Proof.
  intros Hdir (e & out & content & He & Hout & Hrev & Hstamp & Hread).
  cbn [mirror]. rewrite Hdir. unfold ensure_mirror. rewrite He.
  unfold mirror_revision, _git_revparse. rewrite He, Hout, Hrev.
  unfold stamp_matches. rewrite He. destruct e as [r o st t].
  cbn in Hstamp. subst st. by rewrite Hread, String.eqb_refl.
Qed.

(** C4: when [mirror(url, ref)] without [fetch] has returned a revision, a
    second call in the state it left returns the same revision and leaves
    state and trace exactly as they are: nothing is cloned, no submodule is
    processed, no stamp is written.  The first call either found the stamp
    in place, or wrote it as its very last step, after the loop over the
    submodules, through the temporary file that is renamed over it. *)
Theorem mirror_twice depth w url ref w1 rev :
  mirror depth self w url ref false = (w1, Ok rev) ->
  (forall depth', mirror (S depth') self w1 url ref false = (w1, Ok rev))
  /\ exists dir,
      _get_mirrordir self url "" = Ok dir
      /\ stamped w1 dir ref rev
      /\ (trace w1 = trace w \/ stamp_written_last w1 dir rev).
Proof.
  intros H. destruct (mirror_post _ _ _ _ _ _ H) as (dir & Hdir & Hst & Hlast).
  split; [| by exists dir].
  intros depth'. by eapply mirror_cached.
Qed.

End mirroring.

Lemma mirror_twice_witness :
  match mirror 3 app_mirror empty_world "https://example.org/app" "master" false with
  | (w1, Ok rev) =>
      rev = hash_a
      /\ mirror 1 app_mirror w1 "https://example.org/app" "master" false
         = (w1, Ok rev)
  | (_, Raise _) => False
  end.
Proof.
  destruct (mirror 3 app_mirror empty_world "https://example.org/app" "master" false)
    as [w1 [rev|e]] eqn:H; [| by vm_compute in H].
  split; [by vm_compute in H; injection H as _ <- |].
  apply (proj1 (mirror_twice app_mirror 3 empty_world
                  "https://example.org/app" "master" w1 rev H) 0%nat).
Defined.

(** The first call of the sample clones both repositories, processes the
    submodule, and stamps the submodule before the application. *)
Lemma mirror_sample_trace :
  trace (mirror 3 app_mirror empty_world "https://example.org/app" "master" false).1
  = [ EvClone "https://example.org/app" "/srv/src/https/example.org/app";
      EvProcessing {| checksum := hash_b; name := "lib";
                      url := "https://example.org/lib" |};
      EvClone "https://example.org/lib" "/srv/src/https/example.org/lib";
      EvStamp "/srv/src/https/example.org/lib" hash_b;
      EvStamp "/srv/src/https/example.org/app" hash_a ].
Proof. vm_compute. reflexivity. Qed.


(** * Further properties of [rdgo/git.py] *)

Section occurrences.
Implicit Types (s a b sub : string) (c d : ascii).

Lemma str_app_inv_head a s1 s2 : a +:+ s1 = a +:+ s2 -> s1 = s2.
Proof.
  induction a as [|c a IH]; [done |]. rewrite !app_cons. intros [= H]. auto.
Qed.

Lemma str_length_0 s : String.length s = 0%nat -> s = "".
Proof. by destruct s. Qed.

Lemma find_nat_none sub s :
  find_nat sub s = None -> forall a b, s <> a +:+ sub +:+ b.
Proof.
  induction s as [|c s IH]; cbn [find_nat].
  - destruct sub as [|x sub']; [done |].
    intros _ [|d a] b; [done | by rewrite app_cons].
  - destruct (String.prefix sub (String c s)) eqn:Hp; [done |].
    destruct (find_nat sub s) eqn:Hs; [done |]. intros _ [|d a] b.
    + intros H. rewrite app_nil_l in H. rewrite H, prefix_app in Hp. done.
    + rewrite app_cons. intros [= -> H]. by eapply IH.
Qed.

Lemma rfind_nat_split sub s (i : nat) :
  rfind_nat sub s = Some i ->
  exists a b, s = a +:+ sub +:+ b /\ String.length a = i.
Proof.
  revert i. induction s as [|c s IH]; intros i; cbn [rfind_nat].
  - destruct sub as [|x sub']; [| done]. intros [= <-]. by exists "", "".
  - destruct (rfind_nat sub s) as [j|].
    + intros [= <-]. destruct (IH j eq_refl) as (a & b & -> & <-).
      by exists (String c a), b.
    + destruct (String.prefix sub (String c s)) eqn:Hp; [| done].
      intros [= <-]. destruct (prefix_inv _ _ Hp) as [r Hr]. by exists "", r.
Qed.

Lemma rfind_nat_none sub s :
  rfind_nat sub s = None -> forall a b, s <> a +:+ sub +:+ b.
Proof.
  induction s as [|c s IH]; cbn [rfind_nat].
  - destruct sub as [|x sub']; [done |].
    intros _ [|d a] b; [done | by rewrite app_cons].
  - destruct (rfind_nat sub s) eqn:Hs; [done |].
    destruct (String.prefix sub (String c s)) eqn:Hp; [done |].
    intros _ [|d a] b.
    + intros H. rewrite app_nil_l in H. rewrite H, prefix_app in Hp. done.
    + rewrite app_cons. intros [= -> H]. by eapply IH.
Qed.

(** A search from the start that fails means there is no occurrence. *)
Lemma find_0_none s sub :
  find s sub 0 = -1 -> forall a b, s <> a +:+ sub +:+ b.
Proof.
  unfold find. pose proof (len_nonneg s).
  destruct (Z.ltb_spec (len s) 0); [lia |].
  rewrite clamp_inside by lia. rewrite slice_from_0.
  destruct (find_nat sub s) eqn:Hs; [lia |]. intros _. by apply find_nat_none.
Qed.

Lemma find_nonneg s sub start : find s sub start = -1 \/ 0 <= find s sub start.
Proof.
  unfold find. destruct (Z.ltb_spec (len s) start); [by left |].
  destruct (find_nat _ _); [right | by left].
  pose proof (len_nonneg s). unfold clamp.
  destruct (Z.ltb_spec start 0); lia.
Qed.

End occurrences.

Section mirror_paths.
Implicit Types (s a b r : string) (c d : ascii).

(** X1: [_get_mirrordir] fails exactly on a URI without [://], with the
    message [Invalid uri <uri>]; otherwise it cuts the URI at its first
    [://] and returns the store directory, the optional prefix, the scheme
    and the rest, joined with ['/']. *)
Theorem get_mirrordir_shape (self : GitMirror) uri prefix :
  match _get_mirrordir self uri prefix with
  | Ok dir =>
      exists scheme rest,
        uri = scheme +:+ "://" +:+ rest
        /\ dir = mirrordir self +:+ "/"
                 +:+ (if String.eqb prefix "" then "" else prefix +:+ "/")
                 +:+ scheme +:+ "/" +:+ rest
  | Raise e =>
      e = Exception ("Invalid uri " +:+ uri)
      /\ forall scheme rest, uri <> scheme +:+ "://" +:+ rest
  end.
Proof.
  unfold _get_mirrordir.
  destruct (find_nonneg uri "://" 0) as [Hnone|Hsome].
  - rewrite Hnone. cbn. split; [done |]. by apply find_0_none.
  - destruct (Z.leb_spec 0 (find uri "://" 0)); [| lia].
    destruct (find_split uri "://" 0) as (a & b & Huri & Ha); [lia |].
    exists a, b. split; [done |]. rewrite <- Ha.
    rewrite Huri at 1 2. rewrite slice_0_app.
    replace (a +:+ "://" +:+ b) with ((a +:+ "://") +:+ b)
      by apply app_assoc_str.
    replace (len a + 3) with (len (a +:+ "://")) by (by rewrite len_app).
    rewrite slice_from_app. by destruct (String.eqb_spec prefix "") as [->|].
Qed.

Lemma find_nat_here sub s :
  String.prefix sub s = true -> find_nat sub s = Some 0%nat.
Proof. destruct s; cbn [find_nat]; by intros ->. Qed.

Lemma find_nat_scheme s r :
  lacks ":" s = true ->
  find_nat "://" (s +:+ "://" +:+ r) = Some (String.length s).
Proof.
  induction s as [|c s IH]; intros Hs.
  - rewrite app_nil_l. apply find_nat_here, prefix_app.
  - rewrite app_cons. cbn [find_nat lacks] in *.
    apply andb_true_iff in Hs as [Hc Hs].
    cbn [String.prefix]. rewrite ascii_dec_eqb, Ascii.eqb_sym.
    apply negb_true_iff in Hc. rewrite Hc.
    by rewrite IH.
Qed.

Lemma find_scheme s r :
  lacks ":" s = true -> find (s +:+ "://" +:+ r) "://" 0 = len s.
Proof.
  intros Hs. unfold find. pose proof (len_nonneg (s +:+ "://" +:+ r)).
  destruct (Z.ltb_spec (len (s +:+ "://" +:+ r)) 0); [lia |].
  rewrite clamp_inside by lia. rewrite slice_from_0.
  rewrite find_nat_scheme by done. unfold len. lia.
Qed.

Lemma split_first_slash a1 b1 a2 b2 :
  lacks "/" a1 = true -> lacks "/" a2 = true ->
  a1 +:+ "/" +:+ b1 = a2 +:+ "/" +:+ b2 -> a1 = a2 /\ b1 = b2.
Proof.
  revert a2. induction a1 as [|c a1 IH]; intros [|d a2] H1 H2;
    rewrite ?app_cons, ?app_nil_l; cbn [lacks] in *.
  - by intros [= ->].
  - intros [= <- _]. by rewrite Ascii.eqb_refl in H2.
  - intros [= -> _]. by rewrite Ascii.eqb_refl in H1.
  - apply andb_true_iff in H1 as [_ H1]. apply andb_true_iff in H2 as [_ H2].
    intros [= -> H]. destruct (IH _ H1 H2 H) as [-> ->]. done.
Qed.

(** X2: two URIs whose schemes contain neither [':'] nor ['/'] are mapped to
    the same mirror directory only when they are the same URI. *)
Theorem get_mirrordir_injective (self : GitMirror) prefix s1 r1 s2 r2 :
  lacks ":" s1 = true -> lacks "/" s1 = true ->
  lacks ":" s2 = true -> lacks "/" s2 = true ->
  _get_mirrordir self (s1 +:+ "://" +:+ r1) prefix
  = _get_mirrordir self (s2 +:+ "://" +:+ r2) prefix ->
  s1 +:+ "://" +:+ r1 = s2 +:+ "://" +:+ r2.
Proof.
  intros Hc1 Hs1 Hc2 Hs2. unfold _get_mirrordir.
  rewrite !find_scheme by done.
  pose proof (len_nonneg s1) as Hn1. pose proof (len_nonneg s2) as Hn2.
  destruct (Z.leb_spec 0 (len s1)) as [_|]; [| lia].
  destruct (Z.leb_spec 0 (len s2)) as [_|]; [| lia].
  clear Hn1 Hn2. rewrite !slice_0_app.
  replace (s1 +:+ "://" +:+ r1) with ((s1 +:+ "://") +:+ r1)
    by apply app_assoc_str.
  replace (s2 +:+ "://" +:+ r2) with ((s2 +:+ "://") +:+ r2)
    by apply app_assoc_str.
  replace (len s1 + 3) with (len (s1 +:+ "://")) by (by rewrite len_app).
  replace (len s2 + 3) with (len (s2 +:+ "://")) by (by rewrite len_app).
  rewrite !slice_from_app. intros [= H].
  do 3 apply str_app_inv_head in H.
  by destruct (split_first_slash _ _ _ _ Hs1 Hs2 H) as [-> ->].
Qed.

Lemma get_mirrordir_injective_witness :
  "https" +:+ "://" +:+ "example.org/app" = "https" +:+ "://" +:+ "example.org/app".
Proof.
  apply (get_mirrordir_injective app_mirror "" "https" "example.org/app"
           "https" "example.org/app"); reflexivity.
Defined.

End mirror_paths.

Section more_relative_urls.
Implicit Types (s a b r parent relpath : string) (c d : ascii).

Lemma endswith_app_slash a : endswith (a +:+ "/") "/" = true.
Proof.
  unfold endswith. rewrite str_length_app. cbn [String.length].
  replace (String.length a + 1 - 1)%nat with (String.length a) by lia.
  rewrite substring_skip_app.
  destruct (Nat.leb_spec 1 (String.length a + 1)); [done | lia].
Qed.

Lemma slice_drop_last_slash a : slice (a +:+ "/") 0 (-1) = a.
Proof.
  unfold slice, clamp. rewrite len_app. pose proof (len_nonneg a).
  change (len "/") with 1. cbn [Z.ltb Z.compare].
  replace (Z.max 0 (len a + 1 + -1)) with (len a) by lia.
  replace (Z.min 0 (len a + 1)) with 0 by lia.
  rewrite Z.sub_0_r. unfold len. rewrite Nat2Z.id. apply substring_0_app.
Qed.

(** X3: one trailing ['/'] of the parent URL makes no difference to the URL
    that [make_absolute_url] returns. *)
Theorem make_absolute_url_trailing_slash parent relpath r :
  endswith parent "/" = false ->
  make_absolute_url (parent +:+ "/") relpath = Ok r
  <-> make_absolute_url parent relpath = Ok r.
Proof.
  intros Hend. unfold make_absolute_url.
  rewrite endswith_app_slash, slice_drop_last_slash, Hend.
  destruct (find parent "://" 0 =? -1); [done |].
  destruct (find parent "/" (find parent "://" 0 + 3) =? -1); [done |].
  by destruct (walk_up relpath parent) as [[walked rest]|].
Qed.

Lemma make_absolute_url_trailing_slash_witness :
  make_absolute_url "https://example.org/grp/repo/" "../other"
  = Ok "https://example.orghttps://example.org/grp/other"
  <-> make_absolute_url "https://example.org/grp/repo" "../other"
  = Ok "https://example.orghttps://example.org/grp/other".
Proof.
  apply (make_absolute_url_trailing_slash "https://example.org/grp/repo"
           "../other"); reflexivity.
Defined.

(** X4: the loop of [_list_submodules_in] rewrites URLs only: the
    submodules come out in the order they were reported, with their
    checksums and names, and a URL that does not start with [../] is kept
    as it is. *)
Theorem absolute_submodules_keeps uri subs submodules :
  absolute_submodules uri subs = Ok submodules ->
  map checksum submodules = map checksum subs
  /\ map name submodules = map name subs
  /\ Forall2 (fun m m' => startswith (url m) "../" = false -> url m' = url m)
       subs submodules.
Proof.
  revert submodules. induction subs as [|m subs IH]; intros submodules.
  - intros [= <-]. by repeat split.
  - cbn [absolute_submodules].
    destruct (startswith (url m) "../") eqn:Hrel.
    + destruct (make_absolute_url uri (url m)) as [u|]; [| done].
      cbn [mbind result_bind].
      destruct (absolute_submodules uri subs) as [l|]; [| done].
      intros [= <-]. destruct (IH l eq_refl) as (Hc & Hn & Hu).
      cbn. rewrite Hc, Hn. repeat split.
      constructor; [cbn; congruence | done].
    + cbn [mbind result_bind].
      destruct (absolute_submodules uri subs) as [l|]; [| done].
      intros [= <-]. destruct (IH l eq_refl) as (Hc & Hn & Hu).
      cbn. rewrite Hc, Hn. repeat split. by constructor.
Qed.

Lemma absolute_submodules_keeps_witness :
  map name
    [ {| checksum := hash_b; name := "lib"; url := "https://example.org/lib" |} ]
  = map name
      [ {| checksum := hash_b; name := "lib"; url := "https://example.org/lib" |} ].
Proof.
  apply (absolute_submodules_keeps "https://example.org/app"
           [ {| checksum := hash_b; name := "lib";
                url := "https://example.org/lib" |} ]
           [ {| checksum := hash_b; name := "lib";
                url := "https://example.org/lib" |} ]).
  reflexivity.
Defined.

(** X5: what [describe] parses can be put together again: without a tag
    the revision is the whole description, of 40 characters; with a tag,
    the description is the tag part, [-g] and the revision; and the
    assertion fails exactly on a description of another length that has no
    [-g] in it. *)
Theorem parse_description_inverse out :
  match parse_description out with
  | Ok (None, rev) => rev = strip out /\ len (strip out) = 40
  | Ok (Some tag, rev) =>
      strip out = tag +:+ "-g" +:+ rev /\ len (strip out) <> 40
  | Raise e =>
      e = AssertionError
      /\ len (strip out) <> 40
      /\ forall a b, strip out <> a +:+ "-g" +:+ b
  end.
Proof.
  unfold parse_description, rfind.
  destruct (Z.eqb_spec (len (strip out)) 40) as [|Hlen]; [done |].
  destruct (rfind_nat "-g" (strip out)) as [i|] eqn:Hi.
  - destruct (Z.leb_spec 0 (Z.of_nat i)); [| lia].
    destruct (rfind_nat_split _ _ _ Hi) as (a & b & Hd & <-).
    split; [| done]. rewrite Hd.
    change (Z.of_nat (String.length a)) with (len a).
    rewrite slice_0_app. do 2 f_equal.
    replace (a +:+ "-g" +:+ b) with ((a +:+ "-g") +:+ b)
      by apply app_assoc_str.
    replace (len a + 2) with (len (a +:+ "-g")) by (by rewrite len_app).
    by rewrite slice_from_app.
  - cbn. split; [done |]. split; [done |]. by apply rfind_nat_none.
Qed.

End more_relative_urls.

Section status_lines.
Implicit Types (s a b line sha name tail : string) (c d sep : ascii).

Lemma split_max_lacks sep (n : nat) s :
  lacks sep s = true -> split_max sep n s = [s].
Proof.
  induction s as [|c s IH]; cbn [lacks split_max]; [done |].
  intros [Hc Hs]%andb_true_iff. destruct n; [done |].
  rewrite Ascii.eqb_sym. apply negb_true_iff in Hc. by rewrite Hc, IH.
Qed.

Lemma split_max_app sep (n : nat) a b :
  lacks sep a = true ->
  split_max sep (S n) (a +:+ String sep b) = a :: split_max sep n b.
Proof.
  induction a as [|c a IH]; intros Ha.
  - rewrite app_nil_l. cbn [split_max]. by rewrite Ascii.eqb_refl.
  - rewrite app_cons. cbn [lacks split_max] in *.
    apply andb_true_iff in Ha as [Hc Ha].
    rewrite Ascii.eqb_sym. apply negb_true_iff in Hc. by rewrite Hc, IH.
Qed.

Lemma slice_from_cons c s : slice_from (String c s) 1 = s.
Proof. apply (slice_from_app (String c "") s). Qed.

Lemma strip_after_space c s :
  is_space c = true -> strip s <> "" -> strip (String c s) = strip s.
Proof.
  intros Hc Hs. unfold strip in *. cbn [rstrip]. rewrite Hc.
  destruct (String.eqb_spec (rstrip s) "") as [E|_].
  - by rewrite E in Hs.
  - cbn [andb lstrip]. by rewrite Hc.
Qed.

(** X6: a status line that, once stripped, is one flag character, a
    checksum, a space and a name without spaces (and then nothing, or a
    space and anything) gives that checksum and that name. *)
Theorem parse_status_line_fields line c sha name tail :
  strip line = String c (sha +:+ " " +:+ name +:+ tail) ->
  lacks " " sha = true ->
  lacks " " name = true ->
  tail = "" \/ (exists t, tail = " " +:+ t) ->
  parse_status_line line = Some (sha, name).
Proof.
  intros Hline Hsha Hname Htail. unfold parse_status_line.
  rewrite Hline. cbn [String.eqb]. rewrite slice_from_cons.
  change (sha +:+ " " +:+ name +:+ tail)
    with (sha +:+ String " " (name +:+ tail)).
  rewrite split_max_app by done.
  destruct Htail as [->|[t ->]].
  - by rewrite app_nil_r_str, split_max_lacks.
  - change (name +:+ " " +:+ t) with (name +:+ String " " t).
    by rewrite split_max_app.
Qed.

Lemma parse_status_line_fields_witness :
  parse_status_line ("-" +:+ hash_b +:+ " lib/foo" +:+ newline)
  = Some (hash_b, "lib/foo").
Proof.
  apply (parse_status_line_fields _ "-" hash_b "lib/foo" "");
    [reflexivity | reflexivity | reflexivity | by left].
Defined.

(** X7: the flag of a submodule that is in sync is a space, which
    [line.strip()] removes before [line[1:]] drops "the flag": for such a
    line the checksum comes back without its first character. *)
Theorem parse_status_line_in_sync s h sha name tail :
  strip s = String h sha +:+ " " +:+ name +:+ tail ->
  lacks " " sha = true ->
  lacks " " name = true ->
  tail = "" \/ (exists t, tail = " " +:+ t) ->
  parse_status_line (" " +:+ s) = Some (sha, name).
Proof.
  intros Hs Hsha Hname Htail.
  apply (parse_status_line_fields _ h sha name tail); try done.
  change (" " +:+ s) with (String " " s).
  rewrite strip_after_space; [done | reflexivity | by rewrite Hs].
Qed.

Lemma parse_status_line_in_sync_witness :
  parse_status_line (" " +:+ "0123abc lib/foo (v1.0)" +:+ newline)
  = Some ("123abc", "lib/foo").
Proof.
  apply (parse_status_line_in_sync _ "0" "123abc" "lib/foo" " (v1.0)");
    [reflexivity | reflexivity | reflexivity | right; by exists "(v1.0)"].
Defined.

End status_lines.

Section paths.
Implicit Types (s a b d suffix : string) (c x : ascii).

Lemma rstrip_char_keeps c d x :
  Ascii.eqb x c = false ->
  rstrip_char c (d +:+ String x "") = d +:+ String x "".
Proof.
  intros Hx. induction d as [|y d IH].
  - rewrite app_nil_l. cbn [rstrip_char]. by rewrite Hx.
  - rewrite app_cons. cbn [rstrip_char]. rewrite IH.
    replace (String.eqb (d +:+ String x "") "") with false
      by (by destruct d).
    by rewrite andb_false_r.
Qed.

Lemma rstrip_char_app c s : rstrip_char c (s +:+ String c "") = rstrip_char c s.
Proof.
  induction s as [|y s IH].
  - rewrite app_nil_l. cbn [rstrip_char]. by rewrite Ascii.eqb_refl.
  - rewrite app_cons. cbn [rstrip_char]. by rewrite IH.
Qed.

Lemma all_char_app_other c d x s :
  Ascii.eqb x c = false -> all_char c (d +:+ String x s) = false.
Proof.
  intros Hx. induction d as [|y d IH].
  - rewrite app_nil_l. cbn [all_char]. by rewrite Hx.
  - rewrite app_cons. cbn [all_char]. by rewrite IH, andb_false_r.
Qed.

Lemma rfind_last_slash a b :
  lacks "/" b = true -> rfind (a +:+ String "/" b) "/" = len a.
Proof.
  intros Hb. unfold rfind, len.
  rewrite (rfind_nat_app_last _ a _ 0); [f_equal; lia |].
  cbn [rfind_nat]. rewrite rfind_nat_lacks by done.
  cbn. by destruct b.
Qed.

(** X8: for a path whose last ['/'] follows a character other than ['/'],
    [path_with_suffix] appends the suffix to the path; a name without any
    ['/'] comes back with a ['/'] in front. *)
Theorem path_with_suffix_appends d x b suffix :
  Ascii.eqb x "/" = false ->
  lacks "/" b = true ->
  path_with_suffix (d +:+ String x "" +:+ "/" +:+ b) suffix
  = d +:+ String x "" +:+ "/" +:+ b +:+ suffix
  /\ path_with_suffix b suffix = "/" +:+ b +:+ suffix.
Proof.
  intros Hx Hb. unfold path_with_suffix, dirname, basename. split.
  - replace (d +:+ String x "" +:+ "/" +:+ b)
      with ((d +:+ String x "") +:+ String "/" b)
      by (by rewrite app_assoc_str).
    rewrite rfind_last_slash by done.
    set (dir := d +:+ String x "").
    replace (dir +:+ String "/" b) with ((dir +:+ "/") +:+ b)
      by (by rewrite app_assoc_str).
    replace (len dir + 1) with (len (dir +:+ "/")) by (by rewrite len_app).
    rewrite slice_0_app, slice_from_app.
    assert (String.eqb (dir +:+ "/") "" = false) as ->.
    { apply String.eqb_neq. unfold dir. destruct d; done. }
    assert (all_char "/" (dir +:+ "/") = false) as ->.
    { unfold dir. rewrite app_assoc_str. by apply all_char_app_other. }
    cbn [negb andb].
    change (dir +:+ "/") with (dir +:+ String "/" "").
    rewrite rstrip_char_app. unfold dir.
    rewrite rstrip_char_keeps by done. by rewrite !app_assoc_str.
  - unfold rfind. rewrite rfind_nat_lacks by done.
    change (-1 + 1) with 0. rewrite slice_from_0.
    replace (slice b 0 0) with "" by (by rewrite <- (slice_0_app "" b)).
    done.
Qed.

Lemma path_with_suffix_appends_witness :
  path_with_suffix "/srv/src/https/example.org/app" ".tmp"
  = "/srv/src/https/example.org/app.tmp".
Proof.
  apply (path_with_suffix_appends "/srv/src/https/example.or" "g" "app" ".tmp");
    reflexivity.
Defined.

End paths.

(** * Further properties of the mirroring engine *)

Section more_mirroring.
Variable self : GitMirror.
Implicit Types (w : world) (e : mirror_entry) (dir rev : string).

(** X9: without [fetch], a call of [mirror] leaves every clone that is
    already in the store where it is and as it is, whether the call returns
    a revision or fails. *)
Theorem mirror_leaves_clones depth w url ref w' res dir e :
  mirror depth self w url ref false = (w', res) ->
  fs w !! dir = Some e ->
  exists e', fs w' !! dir = Some e' /\ entry_repo e' = entry_repo e.
Proof. intros H He. by eapply (mirror_keeps_repos self). Qed.

Lemma mirror_revision_rev
    (rec : world -> string -> string -> bool -> world * result string)
    w dir url ref fetch w' rev :
  mirror_revision rec w dir url ref fetch = (w', Ok rev) ->
  _git_revparse w dir ref = Ok rev.
Proof.
  unfold mirror_revision.
  destruct (_git_revparse w dir ref) as [rev0|]; [| done].
  destruct (stamp_matches w dir rev0); [by intros [= _ ->] |].
  destruct (_list_submodules w dir url ref); [| done].
  destruct (mirror_modules rec w _ fetch) as [w1 [[]|]]; [| done].
  destruct (write_stamp dir rev0 w1) as [w2 [[]|]]; [| done].
  by intros [= _ ->].
Qed.

(** X10: the revision [mirror] returns is resolved in the remote
    repository when the call clones or fetches, and in the local clone,
    whatever the remote holds by now, when the mirror exists and no fetch
    is asked for. *)
Theorem mirror_revision_source depth w url ref fetch w' rev dir :
  _get_mirrordir self url "" = Ok dir ->
  mirror depth self w url ref fetch = (w', Ok rev) ->
  match fs w !! dir with
  | None =>
      exists r out,
        remotes self !! _strip_file_url url = Some r
        /\ repo_refs r !! ref = Some out /\ rev = strip out
  | Some e =>
      if fetch then
        exists r out,
          remotes self !! entry_origin e = Some r
          /\ repo_refs r !! ref = Some out /\ rev = strip out
      else
        exists out,
          repo_refs (entry_repo e) !! ref = Some out /\ rev = strip out
  end.
Proof.
  intros Hdir. destruct depth as [|depth]; cbn [mirror]; [done |].
  rewrite Hdir. unfold ensure_mirror, clone_mirror, fetch_mirror.
  destruct (fs w !! dir) as [e|] eqn:He.
  - destruct fetch.
    + destruct (remotes self !! entry_origin e) as [r|]; [| done].
      intros H%mirror_revision_rev. revert H. unfold _git_revparse. cbn.
      rewrite lookup_insert_eq. cbn.
      destruct (repo_refs r !! ref) as [out|] eqn:Hout; [| done].
      intros [= <-]. by exists r, out.
    + intros H%mirror_revision_rev. revert H. unfold _git_revparse.
      rewrite He.
      destruct (repo_refs (entry_repo e) !! ref) as [out|] eqn:Hout; [| done].
      intros [= <-]. by exists out.
  - destruct (remotes self !! _strip_file_url url) as [r|]; [| done].
    intros H%mirror_revision_rev. revert H. unfold _git_revparse. cbn.
    rewrite lookup_insert_eq. cbn.
    destruct (repo_refs r !! ref) as [out|] eqn:Hout; [| done].
    intros [= <-]. by exists r, out.
Qed.

Lemma mirror_ok_dir depth w url ref w' rev :
  mirror depth self w url ref false = (w', Ok rev) ->
  exists dir, _get_mirrordir self url "" = Ok dir /\ is_Some (fs w' !! dir).
Proof.
  intros H. destruct (mirror_post self _ _ _ _ _ _ H) as (dir & Hdir & Hst & _).
  exists dir. split; [done |]. destruct Hst as (e & _ & _ & He & _). eauto.
Qed.

Lemma repos_kept_is_Some w w' dir :
  repos_kept w w' -> is_Some (fs w !! dir) -> is_Some (fs w' !! dir).
Proof. intros Hk [e He]. destruct (Hk _ _ He) as (e' & He' & _). eauto. Qed.

Lemma mirror_modules_dirs depth modules : forall w w',
  mirror_modules (mirror depth self) w modules false = (w', Ok ()) ->
  Forall (fun m => exists dm,
            _get_mirrordir self (url m) "" = Ok dm /\ is_Some (fs w' !! dm))
    modules.
Proof.
  induction modules as [|m modules IH]; intros w w'; cbn [mirror_modules].
  - by constructor.
  - destruct (mirror depth self (emit (EvProcessing m) w) (url m) (checksum m) false)
      as [w1 [rev|]] eqn:Hm; [| done].
    intros Hrest. constructor; [| by eapply IH].
    destruct (mirror_ok_dir _ _ _ _ _ _ Hm) as (dm & Hdm & Hsome).
    exists dm. split; [done |].
    eapply repos_kept_is_Some; [| done].
    eapply mirror_modules_keeps; [| done]. apply mirror_keeps_repos.
Qed.

Lemma list_submodules_same_repo w w' dir url ref e e' :
  fs w !! dir = Some e -> fs w' !! dir = Some e' ->
  entry_repo e' = entry_repo e ->
  _list_submodules w' dir url ref = _list_submodules w dir url ref.
Proof.
  intros He He' Hrepo. unfold _list_submodules, _git_revparse.
  by rewrite He, He', Hrepo.
Qed.

(** X11: when [mirror] has cloned a repository for the first time and
    returned, the store holds a clone of every submodule that the
    repository lists at that ref. *)
Theorem mirror_first_time_covers_submodules depth w uri ref w' rev dir :
  _get_mirrordir self uri "" = Ok dir ->
  fs w !! dir = None ->
  mirror depth self w uri ref false = (w', Ok rev) ->
  exists modules,
    _list_submodules w' dir uri ref = Ok modules
    /\ Forall (fun m => exists dm,
                 _get_mirrordir self (url m) "" = Ok dm
                 /\ is_Some (fs w' !! dm))
         modules.
Proof.
  intros Hdir Hnew. destruct depth as [|depth]; cbn [mirror]; [done |].
  rewrite Hdir. unfold ensure_mirror, clone_mirror. rewrite Hnew.
  destruct (remotes self !! _strip_file_url uri) as [r|]; [| done].
  set (w1 := emit _ _).
  assert (fs w1 !! dir = Some {| entry_repo := r;
                                 entry_origin := _strip_file_url uri;
                                 entry_stamp := None;
                                 entry_stamp_tmp := None |}) as He1
    by apply lookup_insert_eq.
  unfold mirror_revision.
  destruct (_git_revparse w1 dir ref) as [rev0|]; [| done].
  unfold stamp_matches. rewrite He1.
  destruct (_list_submodules w1 dir uri ref) as [modules|] eqn:Hlist; [| done].
  destruct (mirror_modules (mirror depth self) w1 modules false)
    as [w2 [[]|]] eqn:Hmods; [| done].
  destruct (write_stamp dir rev0 w2) as [w3 [[]|]] eqn:Hstamp; [| done].
  intros [= <- <-]. exists modules.
  pose proof (mirror_modules_keeps _ (mirror_keeps_repos self depth)
                _ _ _ _ Hmods) as Hk12.
  pose proof (write_stamp_keeps _ _ _ _ _ Hstamp) as Hk23.
  destruct (repos_kept_trans _ _ _ Hk12 Hk23 _ _ He1) as (e3 & He3 & Hrepo).
  split.
  - by rewrite (list_submodules_same_repo w1 w3 dir uri ref _ e3 He1 He3 Hrepo).
  - eapply Forall_impl; [by eapply mirror_modules_dirs |].
    intros m (dm & Hdm & Hsome). exists dm. split; [done |].
    by eapply repos_kept_is_Some.
Qed.

End more_mirroring.

Lemma mirror_leaves_clones_witness :
  exists e',
    fs (mirror 2 app_mirror mirrored_world app_url "master" false).1 !! lib_dir
    = Some e'
    /\ entry_repo e' = entry_repo lib_entry.
Proof.
  apply (mirror_leaves_clones app_mirror 2 mirrored_world app_url "master"
           _ (mirror 2 app_mirror mirrored_world app_url "master" false).2
           lib_dir lib_entry).
  - apply surjective_pairing.
  - vm_compute. reflexivity.
Defined.

Lemma mirror_revision_source_witness :
  exists r out,
    remotes app_mirror !! _strip_file_url app_url = Some r
    /\ repo_refs r !! "master" = Some out /\ hash_a = strip out.
Proof.
  apply (mirror_revision_source app_mirror 3 empty_world app_url "master" false
           mirrored_world hash_a app_dir);
    vm_compute; reflexivity.
Defined.

Lemma mirror_first_time_covers_submodules_witness :
  exists modules,
    _list_submodules mirrored_world app_dir app_url "master" = Ok modules
    /\ Forall (fun m => exists dm,
                 _get_mirrordir app_mirror (url m) "" = Ok dm
                 /\ is_Some (fs mirrored_world !! dm))
         modules.
Proof.
  apply (mirror_first_time_covers_submodules app_mirror 3 empty_world app_url
           "master" mirrored_world hash_a app_dir);
    vm_compute; reflexivity.
Defined.

(** * Further properties of [rdgo/task_resolve.py] *)

Section project_names.
Implicit Types (s a b p suf : string) (c d sep : ascii).

Lemma lacks_app c a b :
  lacks c (a +:+ b) = lacks c a && lacks c b.
Proof.
  induction a as [|d a IH]; [done |].
  rewrite app_cons. cbn [lacks]. by rewrite IH, andb_assoc.
Qed.

Lemma lacks_substring_0 c (m : nat) s :
  lacks c s = true -> lacks c (String.substring 0 m s) = true.
Proof.
  revert m. induction s as [|d s IH]; intros [|m]; cbn [lacks String.substring];
    try done.
  intros [Hd Hs]%andb_true_iff. by rewrite Hd, IH.
Qed.

Lemma lacks_slice_0 c s (k : Z) :
  lacks c s = true -> lacks c (slice s 0 k) = true.
Proof.
  intros Hs. unfold slice. pose proof (len_nonneg s).
  rewrite (clamp_inside (len s) 0) by lia. by apply lacks_substring_0.
Qed.

Lemma rfind_char_bounds s c : -1 <= rfind s (String c "") < len s \/ s = "".
Proof.
  unfold rfind. destruct (rfind_nat (String c "") s) as [i|] eqn:Hi.
  - left. destruct (rfind_nat_char_Some _ _ _ Hi) as (a & b & -> & <- & _).
    rewrite len_app. unfold len. cbn [String.length]. lia.
  - destruct s; [by right | left]. unfold len. cbn [String.length]. lia.
Qed.

(** Past the last occurrence of a character there is none. *)
Lemma lacks_after_rfind c s (i : Z) :
  rfind s (String c "") < i -> lacks c (slice_from s i) = true.
Proof.
  intros Hi. pose proof (len_nonneg s) as Hlen.
  assert (-1 <= rfind s (String c "")) as Hlow.
  { unfold rfind. destruct (rfind_nat _ _); lia. }
  assert (slice_from s i = slice_from s (Z.min i (len s))) as ->.
  { unfold slice_from, slice, clamp.
    destruct (Z.ltb_spec i 0); [lia |].
    destruct (Z.ltb_spec (Z.min i (len s)) 0); [lia |].
    by rewrite Z.min_id, (Z.min_l (Z.min i (len s))) by lia. }
  destruct (split_at s (Z.to_nat (Z.min i (len s)))) as (x & y & -> & Hx);
    [unfold len in *; lia |].
  assert (len x = Z.min i (len (x +:+ y))) as <- by (unfold len in *; lia).
  rewrite slice_from_app.
  destruct (lacks c y) eqn:Hy; [done | exfalso].
  destruct (rfind_nat (String c "") y) as [k|] eqn:Hk.
  - revert Hi. unfold rfind.
    rewrite (rfind_nat_app_last _ x _ _ Hk).
    destruct (rfind_nat_char_Some _ _ _ Hk) as (a & b & -> & <- & _).
    unfold len in *. rewrite !str_length_app in *.
    cbn [String.length] in *. lia.
  - apply rfind_nat_None_lacks in Hk. congruence.
Qed.

(** X12: the project name that [_url_to_projname] derives never contains a
    ['/'] or a [':'], whatever the URL. *)
Theorem url_to_projname_no_separator url :
  lacks "/" (_url_to_projname url) = true
  /\ lacks ":" (_url_to_projname url) = true.
Proof.
  unfold _url_to_projname.
  set (i := Z.max (rfind url ":") (rfind url "/") + 1).
  assert (lacks "/" (slice_from url i) = true) as Hs
    by (apply lacks_after_rfind; unfold i; lia).
  assert (lacks ":" (slice_from url i) = true) as Hc
    by (apply lacks_after_rfind; unfold i; lia).
  destruct (endswith (slice_from url i) ".git");
    [split; by apply lacks_slice_0 | done].
Qed.

Lemma endswith_app a suf : endswith (a +:+ suf) suf = true.
Proof.
  unfold endswith. rewrite str_length_app.
  replace (String.length a + String.length suf - String.length suf)%nat
    with (String.length a) by lia.
  rewrite substring_skip_app, substring_0_all, String.eqb_refl.
  destruct (Nat.leb_spec (String.length suf) (String.length a + String.length suf));
    [done | lia].
Qed.

Lemma slice_drop_suffix a suf :
  suf <> "" -> slice (a +:+ suf) 0 (- len suf) = a.
Proof.
  intros Hsuf. unfold slice, clamp. rewrite len_app.
  pose proof (len_nonneg a).
  assert (0 < len suf) by (destruct suf; [done | unfold len; cbn; lia]).
  destruct (Z.ltb_spec (- len suf) 0); [| lia].
  destruct (Z.ltb_spec 0 0); [lia |].
  replace (Z.max 0 (len a + len suf + - len suf)) with (len a) by lia.
  replace (Z.min 0 (len a + len suf)) with 0 by lia.
  rewrite Z.sub_0_r. unfold len. rewrite Nat2Z.id. apply substring_0_app.
Qed.

Lemma prefix_char c d s :
  String.prefix (String c "") (String d s) = Ascii.eqb d c.
Proof.
  cbn [String.prefix]. rewrite ascii_dec_eqb.
  destruct (Ascii.eqb d c); [by destruct s | done].
Qed.

Lemma rfind_nat_app_lacks c a b :
  lacks c b = true ->
  rfind_nat (String c "") (a +:+ b) = rfind_nat (String c "") a.
Proof.
  intros Hb. induction a as [|d a IH].
  - rewrite app_nil_l. by apply rfind_nat_lacks.
  - rewrite app_cons. cbn [rfind_nat]. by rewrite IH, !prefix_char.
Qed.

Lemma rfind_sep p sep b :
  lacks sep b = true -> rfind (p +:+ String sep b) (String sep "") = len p.
Proof.
  intros Hb. unfold rfind, len.
  rewrite (rfind_nat_app_last _ p _ 0); [f_equal; lia |].
  cbn [rfind_nat]. rewrite rfind_nat_lacks by done.
  by rewrite prefix_char, Ascii.eqb_refl.
Qed.

Lemma rfind_other p sep c b :
  Ascii.eqb c sep = false -> lacks c b = true ->
  rfind (p +:+ String sep b) (String c "") < len p.
Proof.
  intros Hne Hb. unfold rfind.
  rewrite rfind_nat_app_lacks
    by (cbn [lacks]; by rewrite Hne, Hb).
  destruct (rfind_char_bounds p c) as [Hp| ->]; [unfold rfind in Hp; lia |].
  reflexivity.
Qed.

Lemma url_basename p sep b :
  sep = "/"%char \/ sep = ":"%char ->
  lacks "/" b = true -> lacks ":" b = true ->
  slice_from (p +:+ String sep b)
    (Z.max (rfind (p +:+ String sep b) ":") (rfind (p +:+ String sep b) "/") + 1)
  = b.
Proof.
  intros Hsep Hs Hc.
  assert (Z.max (rfind (p +:+ String sep b) ":")
                (rfind (p +:+ String sep b) "/") = len p) as ->.
  { destruct Hsep as [-> | ->].
    - rewrite (rfind_sep p "/" b) by done.
      pose proof (rfind_other p "/" ":" b eq_refl Hc). lia.
    - rewrite (rfind_sep p ":" b) by done.
      pose proof (rfind_other p ":" "/" b eq_refl Hs). lia. }
  replace (p +:+ String sep b) with ((p +:+ String sep "") +:+ b)
    by (by rewrite app_assoc_str).
  replace (len p + 1) with (len (p +:+ String sep "")) by (by rewrite len_app).
  apply slice_from_app.
Qed.

(** X13: for a URL that ends, after a ['/'] or a [':'], in a last component
    free of both, the project name is that component, without [.git] when
    it ends so. *)
Theorem url_to_projname_last_component p sep b :
  sep = "/"%char \/ sep = ":"%char ->
  lacks "/" b = true -> lacks ":" b = true ->
  (endswith b ".git" = false -> _url_to_projname (p +:+ String sep b) = b)
  /\ _url_to_projname (p +:+ String sep (b +:+ ".git")) = b.
Proof.
  intros Hsep Hs Hc. unfold _url_to_projname. split.
  - intros Hgit. by rewrite url_basename, Hgit.
  - rewrite url_basename; [| done | by rewrite lacks_app, Hs | by rewrite lacks_app, Hc].
    rewrite endswith_app. apply (slice_drop_suffix b ".git"). done.
Qed.

Lemma url_to_projname_last_component_witness :
  _url_to_projname "git@example.org:grp/foo.git" = "foo".
Proof.
  apply (url_to_projname_last_component "git@example.org:grp" "/" "foo");
    [by left | reflexivity | reflexivity].
Defined.

End project_names.

Section more_expansion.
Implicit Types (d f : gmap string string) (c : Component) (self : task).

(** X14: [_expand_srckey] replaces the name of the first alias that the
    value starts with (name and [':']) by that alias's URL, and returns a
    value that starts with no alias unchanged. *)
Theorem expand_alias_first_match before alias after val rest :
  Forall (fun a => startswith val (alias_name a +:+ ":") = false) before ->
  (val = alias_name alias +:+ ":" +:+ rest ->
   expand_alias (before ++ alias :: after) val = alias_url alias +:+ rest)
  /\ expand_alias before val = val.
Proof.
  intros Hbefore. induction Hbefore as [|a before Ha Hbefore IH].
  - split; [| done]. intros ->. cbn [app expand_alias].
    replace (alias_name alias +:+ ":" +:+ rest)
      with ((alias_name alias +:+ ":") +:+ rest) by apply app_assoc_str.
    unfold startswith. by rewrite prefix_app, slice_from_app.
  - cbn [app expand_alias]. rewrite Ha. cbn [negb]. exact IH.
Qed.

Lemma expand_alias_first_match_witness :
  expand_alias (aliases sample_task) "gh:grp/foo" = "https://github.com/grp/foo".
Proof.
  apply (expand_alias_first_match []
           {| alias_name := "gh"; alias_url := "https://github.com/" |} []
           "gh:grp/foo" "grp/foo"); [constructor | reflexivity].
Defined.

(** X15: [_ensure_key_or] never overwrites: afterwards the key holds the
    value that is returned, which is the one the dictionary had when it had
    one and the given default otherwise; no other key changes. *)
Theorem ensure_key_or_spec d key value :
  (_ensure_key_or d key value).1 !! key = Some (_ensure_key_or d key value).2
  /\ (forall k, k <> key -> (_ensure_key_or d key value).1 !! k = d !! k)
  /\ (forall x, d !! key = Some x ->
        _ensure_key_or d key value = (d, x))
  /\ (d !! key = None -> (_ensure_key_or d key value).2 = value).
Proof.
  unfold _ensure_key_or. destruct (d !! key) as [x|] eqn:Hx; cbn.
  - repeat split; try done. by intros x' [= ->].
  - rewrite lookup_insert_eq. repeat split; try done.
    intros k Hk. by rewrite lookup_insert_ne.
Qed.

Ltac expand_step :=
  first
    [ progress cbn [mbind result_bind is_internal negb set_fields set_distgit
                    fields distgit fatal]
    | rewrite ensure_key_or_eq
    | rewrite expand_distgit_eq
    | progress unfold _expand_srckey, getitem
    | match goal with
      | H : ?x = _ |- context [match ?x with _ => _ end] => rewrite H
      | |- context [String.eqb ?a ?b] =>
          destruct (String.eqb_spec a b); try subst a
      | |- context [match ?x with _ => _ end] => destruct x eqn:?
      end ].

Ltac expand_component_cases :=
  unfold _expand_component; repeat expand_step.

Ltac map_lookups :=
  repeat first
    [ rewrite lookup_insert_eq
    | rewrite default_branch_branch
    | rewrite default_branch_lookup by done
    | rewrite lookup_insert_ne by done
    | rewrite lookup_delete_ne by done
    | rewrite lookup_delete_eq
    | rewrite lookup_empty ].

Lemma is_Some_tag_or_branch d :
  is_Some (default_branch d !! "tag") \/ is_Some (default_branch d !! "branch").
Proof.
  rewrite default_branch_branch, default_branch_lookup by done.
  destruct (d !! "tag"); eauto.
Qed.

(** X16: an expanded component is fully populated: it has a [name] and a
    [pkgname], a [tag] or a [branch], and a [src] or a [distgit] record;
    unless it is [spec: internal], its [distgit] record is there with a
    [name], a [src] and a [tag] or a [branch]. *)
Theorem expand_component_populates self c c' :
  _expand_component self c = Ok c' ->
  is_Some (fields c' !! "name")
  /\ is_Some (fields c' !! "pkgname")
  /\ (is_Some (fields c' !! "tag") \/ is_Some (fields c' !! "branch"))
  /\ (is_Some (fields c' !! "src") \/ is_Some (distgit c'))
  /\ (is_internal (fields c !! "spec") = false ->
      exists d', distgit c' = Some d'
                 /\ is_Some (d' !! "name")
                 /\ is_Some (d' !! "src")
                 /\ (is_Some (d' !! "tag") \/ is_Some (d' !! "branch"))).
Proof.
  intros Hexp. revert Hexp.
  expand_component_cases; intros [= <-];
    cbn [fields distgit set_fields set_distgit is_internal].
  all: split; [map_lookups; eauto |].
  all: split; [map_lookups; eauto |].
  all: split; [rewrite !lookup_insert_ne by done; apply is_Some_tag_or_branch |].
  all: split; [map_lookups; eauto |].
  all: try (by intros [=]).
  all: try (intros Hint; by rewrite String.eqb_refl in Hint).
  all: intros _; eexists; (split; [done |]).
  all: split; [map_lookups; eauto |].
  all: split; [map_lookups; eauto |].
  all: apply is_Some_tag_or_branch.
Qed.

Lemma expand_component_populates_witness :
  match _expand_component sample_task tag_and_branch with
  | Ok c' => is_Some (fields c' !! "name")
  | Raise _ => False
  end.
Proof.
  destruct (_expand_component sample_task tag_and_branch)
    as [c'|e] eqn:Hexp; [| by vm_compute in Hexp].
  exact (proj1 (expand_component_populates sample_task tag_and_branch c' Hexp)).
Defined.

Lemma insert_default_keeps d key x k v :
  d !! k = Some v -> <[key := default x (d !! key)]> d !! k = Some v.
Proof.
  intros H. destruct (decide (key = k)) as [->|Hne].
  - by rewrite lookup_insert_eq, H.
  - by rewrite lookup_insert_ne.
Qed.

Lemma default_branch_keeps d k v :
  d !! k = Some v -> default_branch d !! k = Some v.
Proof.
  intros H. unfold default_branch. destruct (d !! "tag"); [done |].
  by apply insert_default_keeps.
Qed.

Ltac keeps :=
  repeat first
    [ assumption
    | apply insert_default_keeps
    | apply default_branch_keeps
    | rewrite lookup_insert_ne by done
    | rewrite lookup_delete_ne by done ].

(** X17: expansion never overrides what the component says: every key
    other than [src] that the component sets keeps its value, and so does
    every key other than [src] of its [distgit] record. *)
Theorem expand_component_keeps_explicit self c c' :
  _expand_component self c = Ok c' ->
  (forall k v, k <> "src" -> fields c !! k = Some v -> fields c' !! k = Some v)
  /\ (forall d k v,
        k <> "src" -> distgit c = Some d -> d !! k = Some v ->
        exists d', distgit c' = Some d' /\ d' !! k = Some v).
Proof.
  intros Hexp. revert Hexp.
  expand_component_cases; intros [= <-];
    cbn [fields distgit set_fields set_distgit].
  all: split; [intros k v Hk Hv; by keeps |].
  all: intros d0 k v Hk Hd Hv; simplify_eq/=; eexists; (split; [done |]).
  all: repeat match goal with
         | H : distgit _ = Some _ |- _ => rewrite H
         end; cbn [default].
  all: by keeps.
Qed.

Lemma expand_component_keeps_explicit_witness :
  match _expand_component sample_task tag_and_branch with
  | Ok c' => fields c' !! "branch" = Some "dev"
  | Raise _ => False
  end.
Proof.
  destruct (_expand_component sample_task tag_and_branch)
    as [c'|e] eqn:Hexp; [| by vm_compute in Hexp].
  apply (proj1 (expand_component_keeps_explicit sample_task tag_and_branch
                  c' Hexp)); [done | reflexivity].
Defined.

(** X18: expansion removes the [src: distgit] marker, so a distgit-only
    component that has been expanded cannot be expanded again: the second
    expansion is fatal for want of [src]. *)
Theorem expand_distgit_only_once self c c' :
  _expand_component self c = Ok c' ->
  fields c !! "src" = Some "distgit" ->
  fields c' !! "src" = None
  /\ _expand_component self c' = fatal "Component {0} is missing 'src'".
Proof.
  intros Hexp Hsrc.
  assert (fields c' !! "src" = None) as Hnone.
  { revert Hexp. expand_component_cases; intros [= <-];
      cbn [fields distgit set_fields set_distgit]; try congruence;
      by map_lookups. }
  split; [done |]. unfold _expand_component. by rewrite Hnone.
Qed.

Lemma expand_distgit_only_once_witness :
  match _expand_component sample_task distgit_only with
  | Ok c' =>
      _expand_component sample_task c' = fatal "Component {0} is missing 'src'"
  | Raise _ => False
  end.
Proof.
  destruct (_expand_component sample_task distgit_only)
    as [c'|e] eqn:Hexp; [| by vm_compute in Hexp].
  apply (proj2 (expand_distgit_only_once sample_task distgit_only c' Hexp
                  ltac:(reflexivity))).
Defined.

End more_expansion.

Section more_versions.
Implicit Types (s t p pkgname : string) (component : Component).

Lemma replace_dash_lacks s : lacks "-" (replace s "-" ".") = true.
Proof.
  unfold replace. change (String.eqb "-" "") with false. cbn iota.
  induction s as [|c s IH]; [done |].
  cbn [replace_from]. rewrite prefix_char.
  change (String.length "-" - 1)%nat with 0%nat.
  destruct (Ascii.eqb c "-") eqn:Hc.
  - rewrite app_cons, app_nil_l. cbn [lacks]. by rewrite IH.
  - cbn [lacks]. by rewrite Ascii.eqb_sym, Hc, IH.
Qed.

(** X19: the version that [_rpm_verrel] computes never contains a ['-'],
    and neither does the release when the upstream revision has none: only
    the metadata description has its dashes replaced. *)
Theorem rpm_verrel_no_dash component upstream_tag upstream_rev distgit_desc
    version release :
  _rpm_verrel component upstream_tag upstream_rev distgit_desc
  = Ok (version, release) ->
  lacks "-" version = true
  /\ (lacks "-" (or_else upstream_rev "") = true -> lacks "-" release = true).
Proof.
  unfold _rpm_verrel, getitem.
  destruct (fields component !! "pkgname") as [pkgname|]; [| done].
  cbn [mbind result_bind]. intros [= <- <-].
  split; [apply replace_dash_lacks |]. intros Hrev.
  destruct distgit_desc as [desc|]; [| done].
  rewrite lacks_app, replace_dash_lacks, andb_true_r.
  destruct (String.eqb (or_else upstream_rev "") ""); cbn [negb]; [done |].
  by rewrite lacks_app, Hrev.
Qed.

Lemma rpm_verrel_no_dash_witness :
  lacks "-" "2.1.beta" = true
  /\ (lacks "-" (or_else (Some hash_a) "") = true ->
      lacks "-" (hash_a +:+ ".f21.2." +:+ hash_b) = true).
Proof.
  apply (rpm_verrel_no_dash
           {| fields := {[ "pkgname" := "foo" ]}; distgit := None |}
           (Some "v2.1-beta") (Some hash_a) (Some ("f21-2-" +:+ hash_b))
           "2.1.beta" (hash_a +:+ ".f21.2." +:+ hash_b)).
  vm_compute. reflexivity.
Defined.

Lemma prefix_longer p s :
  (String.length s < String.length p)%nat -> String.prefix p s = false.
Proof.
  revert s. induction p as [|c p IH]; intros [|d s]; cbn; try lia; try done.
  intros H. destruct (ascii_dec c d); [apply IH; lia | done].
Qed.

(** X20: without an upstream tag the version is ["0"], whatever the
    package name. *)
Theorem rpm_verrel_version_zero component pkgname upstream_tag upstream_rev
    distgit_desc :
  fields component !! "pkgname" = Some pkgname ->
  upstream_tag = None \/ upstream_tag = Some "" ->
  exists release,
    _rpm_verrel component upstream_tag upstream_rev distgit_desc
    = Ok ("0", release).
Proof.
  intros Hpkg Htag. unfold _rpm_verrel, getitem. rewrite Hpkg.
  cbn [mbind result_bind].
  assert (or_else upstream_tag "0" = "0") as -> by (by destruct Htag as [-> | ->]).
  cbn [_strip_all_prefixes]. unfold startswith at 1 2.
  change (String.prefix "v" "0") with false. cbn iota.
  assert (String.prefix (pkgname +:+ "-") "0" = false) as ->.
  { destruct pkgname as [|c p]; [done |]. apply prefix_longer.
    rewrite app_cons. cbn [String.length]. rewrite str_length_app.
    cbn [String.length]. lia. }
  eauto.
Qed.

Lemma rpm_verrel_version_zero_witness :
  exists release,
    _rpm_verrel {| fields := {[ "pkgname" := "foo" ]}; distgit := None |}
      None (Some hash_a) None
    = Ok ("0", release).
Proof.
  apply (rpm_verrel_version_zero
           {| fields := {[ "pkgname" := "foo" ]}; distgit := None |} "foo");
    [reflexivity | by left].
Defined.

(** X21: when the package name does not start with [v], a tag of the form
    [<pkgname>-<t>] gives the version [<t>] with its dashes turned into
    dots: the redundant package name goes. *)
Theorem rpm_verrel_drops_pkgname component pkgname t upstream_rev distgit_desc :
  fields component !! "pkgname" = Some pkgname ->
  startswith pkgname "v" = false ->
  exists release,
    _rpm_verrel component (Some (pkgname +:+ "-" +:+ t)) upstream_rev distgit_desc
    = Ok (replace t "-" ".", release).
Proof.
  intros Hpkg Hv.
  destruct (rpm_verrel_version component pkgname (Some (pkgname +:+ "-" +:+ t))
              upstream_rev distgit_desc Hpkg) as [release ->].
  exists release. do 2 f_equal.
  assert (or_else (Some (pkgname +:+ "-" +:+ t)) "0" = pkgname +:+ "-" +:+ t)
    as ->.
  { cbn [or_else]. destruct pkgname; done. }
  assert (strip_once "v" (pkgname +:+ "-" +:+ t) = pkgname +:+ "-" +:+ t) as ->.
  { unfold strip_once. rewrite drop_prefix_none; [done |].
    unfold startswith in Hv. destruct pkgname as [|c p]; [done |].
    rewrite app_cons. by rewrite prefix_char in *. }
  unfold strip_once.
  replace (pkgname +:+ "-" +:+ t) with ((pkgname +:+ "-") +:+ t)
    by apply app_assoc_str.
  by rewrite drop_prefix_app.
Qed.

Lemma rpm_verrel_drops_pkgname_witness :
  exists release,
    _rpm_verrel {| fields := {[ "pkgname" := "foo" ]}; distgit := None |}
      (Some "foo-3.0-1") (Some hash_a) None
    = Ok ("3.0.1", release).
Proof.
  apply (rpm_verrel_drops_pkgname
           {| fields := {[ "pkgname" := "foo" ]}; distgit := None |}
           "foo" "3.0-1"); reflexivity.
Defined.

End more_versions.

Section more_snapshot_commit.
Implicit Types (w : workdir) (manifest : string).

(** X22: whenever the commit succeeds, the published directory holds the
    manifest that was just generated and the staging directory is gone,
    whether the run changed anything or not. *)
Theorem commit_snapshot_publishes workdir_path manifest touch_if_changed w w' :
  commit_snapshot workdir_path manifest touch_if_changed w = Ok w' ->
  tmp_snapshotdir w' = None
  /\ exists cur,
      snapshotdir w' = Some cur /\ cur !! "snapshot.json" = Some manifest.
Proof.
  unfold commit_snapshot, cmp.
  destruct (tmp_snapshotdir w) as [tmp|]; [| done].
  destruct (snapshotdir w) as [cur|] eqn:Hcur; cbn [mbind option_bind]; [| done].
  destruct (cur !! "snapshot.json") as [published|] eqn:Hpub.
  - destruct (String.eqb_spec published manifest) as [->|]; cbn [negb Z.eqb].
    + intros [= <-]. cbn. eauto.
    + destruct touch_if_changed as [path|]; [destruct (String.eqb path "") |];
        intros [= <-]; cbn; (split; [done |]); eexists;
        (split; [done |]); apply lookup_insert_eq.
  - destruct touch_if_changed as [path|]; [destruct (String.eqb path "") |];
      intros [= <-]; cbn; (split; [done |]); eexists;
      (split; [done |]); apply lookup_insert_eq.
Qed.

Lemma commit_snapshot_publishes_witness :
  exists cur,
    Some ({[ "snapshot.json" := "{2}" ]} : gmap string string) = Some cur
    /\ cur !! "snapshot.json" = Some "{2}".
Proof.
  apply (commit_snapshot_publishes "/work" "{2}" None promoted_workdir
           {| old_snapshotdir := Some {[ "snapshot.json" := "{1}" ]};
              snapshotdir := Some {[ "snapshot.json" := "{2}" ]};
              tmp_snapshotdir := None;
              touched := [];
              logged := ["Wrote: /work/snapshot"] |}).
  vm_compute. reflexivity.
Defined.

(** X23: committing the same manifest a second time, from a fresh staging
    directory, changes nothing that is published: it logs "No changes.",
    touches no marker, and leaves no backup. *)
Theorem commit_snapshot_twice workdir_path manifest touch1 touch2 staged w w1 :
  commit_snapshot workdir_path manifest touch1 w = Ok w1 ->
  exists w2,
    commit_snapshot workdir_path manifest touch2 (stage staged w1) = Ok w2
    /\ snapshotdir w2 = snapshotdir w1
    /\ tmp_snapshotdir w2 = None
    /\ old_snapshotdir w2 = None
    /\ touched w2 = touched w1
    /\ logged w2 = logged w1 ++ ["No changes."].
Proof.
  intros H.
  destruct (commit_snapshot_publishes _ _ _ _ _ H) as (_ & cur & Hcur & Hm).
  unfold commit_snapshot, cmp, stage. cbn [tmp_snapshotdir snapshotdir].
  rewrite Hcur. cbn [mbind option_bind]. rewrite Hm, String.eqb_refl.
  cbn [negb Z.eqb]. eexists. split; [done |]. by cbn.
Qed.

Lemma commit_snapshot_twice_witness :
  exists w2,
    commit_snapshot "/work" "{1}" None
      (stage ∅ {| old_snapshotdir := None;
                  snapshotdir := Some {[ "snapshot.json" := "{1}" ]};
                  tmp_snapshotdir := None;
                  touched := [];
                  logged := ["No changes."] |}) = Ok w2
    /\ snapshotdir w2 = Some {[ "snapshot.json" := "{1}" ]}
    /\ tmp_snapshotdir w2 = None
    /\ old_snapshotdir w2 = None
    /\ touched w2 = []
    /\ logged w2 = ["No changes."; "No changes."].
Proof.
  apply (commit_snapshot_twice "/work" "{1}" None None ∅ promoted_workdir).
  vm_compute. reflexivity.
Defined.

End more_snapshot_commit.

Section mirror_traces.
Variable self : GitMirror.
Implicit Types (w : world) (e : mirror_entry) (dir rev : string).

Lemma appends_refl fetch w : appends fetch w w.
Proof. exists []. by rewrite app_nil_r. Qed.

Lemma appends_trans fetch w1 w2 w3 :
  appends fetch w1 w2 -> appends fetch w2 w3 -> appends fetch w1 w3.
Proof.
  intros (evs1 & H1 & Hq1) (evs2 & H2 & Hq2). exists (evs1 ++ evs2).
  split; [by rewrite H2, H1, app_assoc |].
  intros Hf. by rewrite forallb_app, Hq1, Hq2.
Qed.

Lemma appends_emit fetch ev w :
  (fetch = false -> is_fetch ev = false) -> appends fetch w (emit ev w).
Proof.
  intros Hev. exists [ev]. split; [done |].
  intros Hf. cbn. by rewrite Hev.
Qed.

Lemma appends_set_entry fetch dir e w : appends fetch w (set_entry dir e w).
Proof. exists []. by rewrite app_nil_r. Qed.

Lemma ensure_mirror_appends url dir fetch w w' res :
  ensure_mirror self url dir fetch w = (w', res) -> appends fetch w w'.
Proof.
  unfold ensure_mirror, clone_mirror, fetch_mirror.
  destruct (fs w !! dir) as [e|].
  - destruct fetch; [| intros [= <- <-]; apply appends_refl].
    destruct (remotes self !! entry_origin e); intros [= <- <-].
    + eapply appends_trans; [apply appends_set_entry | by apply appends_emit].
    + by apply appends_emit.
  - destruct (remotes self !! _strip_file_url url); intros [= <- <-].
    + eapply appends_trans; [apply appends_set_entry | by apply appends_emit].
    + apply appends_refl.
Qed.

Lemma write_stamp_appends fetch dir rev w w' res :
  write_stamp dir rev w = (w', res) -> appends fetch w w'.
Proof.
  unfold write_stamp. destruct (fs w !! dir) as [e|]; intros [= <- <-].
  - eapply appends_trans; [apply appends_set_entry |].
    eapply appends_trans; [apply appends_set_entry | by apply appends_emit].
  - apply appends_refl.
Qed.

Lemma mirror_modules_appends fetch
    (rec : world -> string -> string -> bool -> world * result string) :
  (forall w u r w' res, rec w u r fetch = (w', res) -> appends fetch w w') ->
  forall modules w w' res,
    mirror_modules rec w modules fetch = (w', res) -> appends fetch w w'.
Proof.
  intros Hrec. induction modules as [|m modules IH]; intros w w' res; simpl.
  - intros [= <- <-]. apply appends_refl.
  - destruct (rec (emit (EvProcessing m) w) (url m) (checksum m) fetch)
      as [w1 [rev|err]] eqn:Hm.
    + intros H. eapply appends_trans; [| by eapply IH].
      apply (appends_trans _ w (emit (EvProcessing m) w));
        [by apply appends_emit | by eapply Hrec].
    + intros [= <- <-].
      apply (appends_trans _ w (emit (EvProcessing m) w));
        [by apply appends_emit | by eapply Hrec].
Qed.

Lemma mirror_revision_appends fetch
    (rec : world -> string -> string -> bool -> world * result string) :
  (forall w u r w' res, rec w u r fetch = (w', res) -> appends fetch w w') ->
  forall w dir url ref w' res,
    mirror_revision rec w dir url ref fetch = (w', res) -> appends fetch w w'.
Proof.
  intros Hrec w dir url ref w' res. unfold mirror_revision.
  destruct (_git_revparse w dir ref) as [rev|err];
    [| intros [= <- <-]; apply appends_refl].
  destruct (stamp_matches w dir rev);
    [intros [= <- <-]; apply appends_refl |].
  destruct (_list_submodules w dir url ref) as [modules|err];
    [| intros [= <- <-]; apply appends_refl].
  destruct (mirror_modules rec w modules fetch) as [w1 [[]|err]] eqn:Hmods;
    [| intros [= <- <-]; by eapply mirror_modules_appends].
  destruct (write_stamp dir rev w1) as [w2 [[]|err]] eqn:Hstamp;
    intros [= <- <-];
    (eapply appends_trans;
     [by eapply mirror_modules_appends | by eapply write_stamp_appends]).
Qed.

Lemma mirror_appends fetch depth : forall w url ref w' res,
  mirror depth self w url ref fetch = (w', res) -> appends fetch w w'.
Proof.
  induction depth as [|depth IH]; intros w url ref w' res; cbn [mirror].
  { intros [= <- <-]. apply appends_refl. }
  destruct (_get_mirrordir self url "") as [dir|err];
    [| intros [= <- <-]; apply appends_refl].
  destruct (ensure_mirror self url dir fetch w) as [w1 [[]|err]] eqn:Hens;
    [| intros [= <- <-]; by eapply ensure_mirror_appends].
  intros H. eapply appends_trans; [by eapply ensure_mirror_appends |].
  by eapply mirror_revision_appends.
Qed.

(** X24: a call of [mirror] only adds to the record of what was done, and
    without [fetch] nothing it adds is a fetch, for the repository and for
    every submodule it reaches, whether the call returns or fails. *)
Theorem mirror_fetches_only_when_asked depth w url ref fetch w' res :
  mirror depth self w url ref fetch = (w', res) ->
  exists evs,
    trace w' = trace w ++ evs
    /\ (fetch = false -> forallb (fun ev => negb (is_fetch ev)) evs = true).
Proof. apply mirror_appends. Qed.

End mirror_traces.

Lemma mirror_fetches_only_when_asked_witness :
  exists evs,
    trace mirrored_world = trace empty_world ++ evs
    /\ (false = false -> forallb (fun ev => negb (is_fetch ev)) evs = true).
Proof.
  apply (mirror_fetches_only_when_asked app_mirror 3 empty_world app_url
           "master" false mirrored_world (Ok hash_a)).
  vm_compute. reflexivity.
Defined.

Section prefix_stripping.
Implicit Types (s p : string) (prefixes : list string).

(** X25: [_strip_all_prefixes] only removes characters from the front:
    what it returns is a suffix of the string it was given, whatever the
    prefixes. *)
Theorem strip_all_prefixes_suffix prefixes : forall s,
  exists p, s = p +:+ _strip_all_prefixes s prefixes.
Proof.
  induction prefixes as [|prefix rest IH]; intros s; cbn [_strip_all_prefixes].
  { by exists "". }
  unfold startswith. destruct (String.prefix prefix s) eqn:Hp.
  - destruct (prefix_inv _ _ Hp) as [r ->]. rewrite slice_from_app.
    destruct (IH r) as [p Hr]. exists (prefix +:+ p).
    by rewrite app_assoc_str, <- Hr.
  - apply IH.
Qed.

End prefix_stripping.
